(** * GGEngine [.gg] script tools: [parse.py], [convert.py], [language_rules.py]

    A shallow embedding of the two scripts of [src/parser] and of the rule
    table they share, followed by the properties established about them.

    Python text is modelled as [list ascii] (code points 0..255).  The
    [str] methods and the fragment of [re] the scripts use are modelled
    first ([Py], [Re]); then come [parse.py] (comment stripping, the
    parsing of a line, the loop over the lines), [language_rules.py],
    [convert.py] ([eval] on the literals [parse.py] writes, [str.format],
    the loop over the lines of the intermediate file) and the two scripts
    as processes over a file system, a finite map from paths to the
    characters stored under them. *)

From Stdlib Require Import Ascii String DecimalString ZArith.
From stdpp Require Import gmap strings list.

Open Scope string_scope.
Open Scope list_scope.

(** ** Text *)

Abbreviation text := (list ascii).

Coercion list_ascii_of_string : string >-> list.

Definition LF : ascii := "010"%char.
Definition CR : ascii := "013"%char.
Definition TAB : ascii := "009"%char.
Definition SP : ascii := " "%char.
Definition BSL : ascii := "\"%char.
Definition SQ : ascii := "'"%char.
Definition DQ : ascii := "034"%char.

Definition ascii_eqb (a b : ascii) : bool := Ascii.eqb a b.

Definition text_eqb (a b : text) : bool := bool_decide (a = b).

(** ** Python [str] and [list] primitives used by the scripts *)

Module Py.

(** Exceptions the scripts can raise. *)
Inductive exn :=
| IndexError
| ValueError
| KeyError
| EvalError
| FileNotFoundError.

(** A computation that returns or raises. *)
Inductive result (A : Type) :=
| Ok (a : A)
| Raise (e : exn).
Arguments Ok {A} a.
Arguments Raise {A} e.

Definition bind {A B} (r : result A) (k : A -> result B) : result B :=
  match r with
  | Ok a => k a
  | Raise e => Raise e
  end.

Notation "'let!' x ':=' r 'in' k" := (bind r (fun x => k))
  (at level 10, x name, r at level 100, k at level 200).

(** [l[i]] for a non-negative index. *)
Definition index {A} (l : list A) (i : nat) : result A :=
  match l !! i with
  | Some a => Ok a
  | None => Raise IndexError
  end.

(** [s.startswith(p)]. *)
Fixpoint startswith (p s : text) : bool :=
  match p, s with
  | [], _ => true
  | _ :: _, [] => false
  | a :: p', b :: s' => ascii_eqb a b && startswith p' s'
  end.

(** [p in s] for strings. *)
Fixpoint contains (p s : text) : bool :=
  startswith p s ||
  match s with
  | [] => false
  | _ :: s' => contains p s'
  end.

(** [s.split(sep)] for a non-empty separator: the pieces between the
    non-overlapping occurrences of [sep], found from the left.  [skip]
    counts the characters of an occurrence still to be passed over and
    [cur] holds the current piece, reversed. *)
Fixpoint split_go (sep : text) (skip : nat) (cur : text) (s : text) : list text :=
  match s with
  | [] => [rev cur]
  | c :: s' =>
      match skip with
      | S k => split_go sep k cur s'
      | O =>
          if startswith sep s
          then rev cur :: split_go sep (length sep - 1) [] s'
          else split_go sep 0 (c :: cur) s'
      end
  end.

Definition split (sep : text) (s : text) : list text := split_go sep 0 [] s.

(** [c.isspace()] on the code points 0..255: the characters
    [str.split()] treats as separators. *)
Definition isspace (c : ascii) : bool :=
  let n := nat_of_ascii c in
  (((9 <=? n) && (n <=? 13)) || ((28 <=? n) && (n <=? 32))
   || (n =? 133) || (n =? 160))%nat.

Definition emit (cur : text) : list text :=
  match cur with
  | [] => []
  | _ :: _ => [rev cur]
  end.

(** [s.split()]: the maximal runs of non-whitespace characters. *)
Fixpoint split_ws_go (cur : text) (s : text) : list text :=
  match s with
  | [] => emit cur
  | c :: s' =>
      if isspace c then emit cur ++ split_ws_go [] s'
      else split_ws_go (c :: cur) s'
  end.

Definition split_ws (s : text) : list text := split_ws_go [] s.

(** [sep.join(l)]. *)
Fixpoint join (sep : text) (l : list text) : text :=
  match l with
  | [] => []
  | [a] => a
  | a :: l' => a ++ sep ++ join sep l'
  end.

(** [s[1:-1]]. *)
Definition slice_1_m1 {A} (s : list A) : list A := take (length s - 2) (drop 1 s).

(** [l.index(x)] on a list of strings. *)
Fixpoint list_index (x : text) (l : list text) : result nat :=
  match l with
  | [] => Raise ValueError
  | y :: l' => if text_eqb y x then Ok 0 else let! i := list_index x l' in Ok (S i)
  end.

(** [for x in l: ...] with a body that can raise: the results in order,
    or the first exception. *)
Fixpoint for_each {A B} (f : A -> result B) (l : list A) : result (list B) :=
  match l with
  | [] => Ok []
  | a :: l' => let! b := f a in let! bs := for_each f l' in Ok (b :: bs)
  end.

End Py.

Import Py.

(** ** The fragment of Python's [re] the scripts use

    A backtracking matcher in the list-of-successes style: the ways a
    pattern can match from a position are listed in the order in which
    Python's engine tries them, so the match [re] reports is the head. *)

Module Re.

Inductive charset :=
| Only (c : ascii)            (* a literal character *)
| Dot                         (* [.] *)
| NoneOf (cs : list ascii).   (* [[^...]] *)

Inductive regex :=
| Eps                         (* the empty pattern *)
| Chr (cs : charset)
| Cat (r1 r2 : regex)
| Alt (r1 r2 : regex)
| StarLazy (cs : charset)     (* [cs*?] *)
| StarGreedy (cs : charset)   (* [cs*] *)
| NotBehind (c : ascii)       (* [(?<!c)] *)
| Bol                         (* [^] *)
| Eol                         (* [$] *)
| Group (n : nat) (r : regex).

Record flags := { MULTILINE : bool; DOTALL : bool }.

(** A position in the subject: the character before the cursor ([None]
    at the start of the subject), the text after it, and the groups
    captured so far. *)
Record mstate := MState {
  m_prev : option ascii;
  m_rest : text;
  m_groups : list (nat * text)
}.

Definition in_class (fl : flags) (cs : charset) (c : ascii) : bool :=
  match cs with
  | Only a => ascii_eqb a c
  | Dot => DOTALL fl || negb (ascii_eqb c LF)
  | NoneOf l => negb (existsb (ascii_eqb c) l)
  end.

Fixpoint star_lazy (fl : flags) (cs : charset) (g : list (nat * text))
    (p : option ascii) (s : text) : list mstate :=
  MState p s g ::
  match s with
  | c :: s' => if in_class fl cs c then star_lazy fl cs g (Some c) s' else []
  | [] => []
  end.

Fixpoint star_greedy (fl : flags) (cs : charset) (g : list (nat * text))
    (p : option ascii) (s : text) : list mstate :=
  match s with
  | c :: s' => if in_class fl cs c then star_greedy fl cs g (Some c) s' else []
  | [] => []
  end ++ [MState p s g].

Definition at_bol (fl : flags) (st : mstate) : bool :=
  match m_prev st with
  | None => true
  | Some c => MULTILINE fl && ascii_eqb c LF
  end.

Definition at_eol (fl : flags) (st : mstate) : bool :=
  match m_rest st with
  | [] => true
  | c :: s' => ascii_eqb c LF && (MULTILINE fl || bool_decide (s' = []))
  end.

(** The text between two positions of one subject. *)
Definition consumed (from to : mstate) : text :=
  take (length (m_rest from) - length (m_rest to)) (m_rest from).

Fixpoint rmatch (fl : flags) (r : regex) (st : mstate) : list mstate :=
  match r with
  | Eps => [st]
  | Chr cs =>
      match m_rest st with
      | c :: s' => if in_class fl cs c then [MState (Some c) s' (m_groups st)] else []
      | [] => []
      end
  | Cat r1 r2 => flat_map (rmatch fl r2) (rmatch fl r1 st)
  | Alt r1 r2 => rmatch fl r1 st ++ rmatch fl r2 st
  | StarLazy cs => star_lazy fl cs (m_groups st) (m_prev st) (m_rest st)
  | StarGreedy cs => star_greedy fl cs (m_groups st) (m_prev st) (m_rest st)
  | NotBehind c =>
      match m_prev st with
      | Some b => if ascii_eqb b c then [] else [st]
      | None => [st]
      end
  | Bol => if at_bol fl st then [st] else []
  | Eol => if at_eol fl st then [st] else []
  | Group n r' =>
      map (fun st' => MState (m_prev st') (m_rest st') ((n, consumed st st') :: m_groups st'))
          (rmatch fl r' st)
  end.

(** A compiled pattern. *)
Record pattern := { p_regex : regex; p_flags : flags }.

(** A match object: how many characters matched and what the groups hold. *)
Record match_object := { span : nat; groups : list (nat * text) }.

Fixpoint lookup_group (n : nat) (g : list (nat * text)) : option text :=
  match g with
  | [] => None
  | (k, v) :: g' => if (k =? n)%nat then Some v else lookup_group n g'
  end.

(** [m.group(n)], [None] for a group that took no part in the match. *)
Definition group (m : match_object) (n : nat) : option text :=
  lookup_group n (groups m).

(** [pattern.match] at the cursor of a subject. *)
Definition match_at (pt : pattern) (prev : option ascii) (s : text) : option match_object :=
  match rmatch (p_flags pt) (p_regex pt) (MState prev s []) with
  | st :: _ => Some {| span := length s - length (m_rest st); groups := m_groups st |}
  | [] => None
  end.

(** [pattern.sub(repl, s)] with a function [repl]: the non-overlapping
    matches found from the left are replaced.  [skip] counts the
    characters of the current match still to be passed over. *)
Fixpoint sub_scan (pt : pattern) (repl : match_object -> text)
    (skip : nat) (prev : option ascii) (s : text) : text :=
  match skip with
  | S k =>
      match s with
      | [] => []
      | c :: s' => sub_scan pt repl k (Some c) s'
      end
  | O =>
      match match_at pt prev s with
      | Some m =>
          repl m ++
          match s with
          | [] => []
          | c :: s' =>
              match span m with
              | O => c :: sub_scan pt repl 0 (Some c) s'
              | S k => sub_scan pt repl k (Some c) s'
              end
          end
      | None =>
          match s with
          | [] => []
          | c :: s' => c :: sub_scan pt repl 0 (Some c) s'
          end
      end
  end.

Definition sub (pt : pattern) (repl : match_object -> text) (s : text) : text :=
  sub_scan pt repl 0 None s.

(** A pattern for a literal string. *)
Fixpoint Str (s : text) : regex :=
  match s with
  | [] => Eps
  | [c] => Chr (Only c)
  | c :: s' => Cat (Chr (Only c)) (Str s')
  end.

(** A sequence of patterns, one after the other. *)
Fixpoint Seq (rs : list regex) : regex :=
  match rs with
  | [] => Eps
  | [r] => r
  | r :: rs' => Cat r (Seq rs')
  end.

End Re.

(** ** [parse.py] *)

(** The pattern [(Q.*?(?<!\\)Q|'.*?(?<!\\)')|(/\*.*?\*/|//[^\r\n]*$)], where
    [Q] stands for the double quote character, compiled with
    [re.MULTILINE | re.DOTALL]. *)
Definition __comments_pattern : Re.pattern :=
  {| Re.p_regex :=
       Re.Alt
         (Re.Group 1
            (Re.Alt
               (Re.Seq [Re.Chr (Re.Only DQ); Re.StarLazy Re.Dot; Re.NotBehind BSL; Re.Chr (Re.Only DQ)])
               (Re.Seq [Re.Chr (Re.Only SQ); Re.StarLazy Re.Dot; Re.NotBehind BSL; Re.Chr (Re.Only SQ)])))
         (Re.Group 2
            (Re.Alt
               (Re.Seq [Re.Str "/*"; Re.StarLazy Re.Dot; Re.Str "*/"])
               (Re.Seq [Re.Str "//"; Re.StarGreedy (Re.NoneOf [CR; LF]); Re.Eol])));
     Re.p_flags := {| Re.MULTILINE := true; Re.DOTALL := true |} |}.

(** The pattern [^\(\)$], compiled with [re.DOTALL]. *)
Definition __args_pattern : Re.pattern :=
  {| Re.p_regex := Re.Seq [Re.Bol; Re.Str "()"; Re.Eol];
     Re.p_flags := {| Re.MULTILINE := false; Re.DOTALL := true |} |}.

(** [__comments_pattern.sub(lambda match: (empty) if match.group(2) is not None
                                          else match.group(1), full_text)].
    One of the two groups takes part in every match, so [match.group(1)]
    is a string whenever group 2 is [None]. *)
Definition strip_comments (full_text : text) : text :=
  Re.sub __comments_pattern
    (fun m => match Re.group m 2 with
              | Some _ => []
              | None => default [] (Re.group m 1)
              end)
    full_text.

(** The statement a script line stands for: the values [parse.py] holds in
    [var_type], [var_name], [class_name], [args] (a declaration) or in
    [var_name], [method_name], [args] (a method call) when it formats the
    line of the intermediate file, and the values [convert.py] reads back
    from that line. *)
Inductive Statement :=
| Construct (var_type var_name class_name : text) (args : list text)
| Invoke (receiver method_name : text) (args : list text).


(** *** [repr] of a [str] and of a list of them, as an f-string prints it *)

Definition hex_digit (n : nat) : ascii := nth n ("0123456789abcdef" : text) "0"%char.

(** [c.isprintable()] on the code points 0..255. *)
Definition isprintable (c : ascii) : bool :=
  let n := nat_of_ascii c in
  (((32 <=? n) && (n <=? 126)) || ((161 <=? n) && negb (n =? 173)))%nat.

Definition has_char (c : ascii) (s : text) : bool := existsb (ascii_eqb c) s.

Definition repr_quote (s : text) : ascii :=
  if has_char SQ s && negb (has_char DQ s) then DQ else SQ.

Definition repr_char (quote c : ascii) : text :=
  if ascii_eqb c quote || ascii_eqb c BSL then [BSL; c]
  else if ascii_eqb c TAB then "\t"
  else if ascii_eqb c LF then "\n"
  else if ascii_eqb c CR then "\r"
  else if isprintable c then [c]
  else let n := nat_of_ascii c in
       BSL :: "x"%char :: hex_digit (n / 16) :: hex_digit (n mod 16) :: [].

Definition repr_str (s : text) : text :=
  let quote := repr_quote s in
  quote :: flat_map (repr_char quote) s ++ [quote].

Definition repr_list (l : list text) : text :=
  "[" ++ join ", " (map repr_str l) ++ "]".

(** The line [parse.py] appends to [output] for a statement:
    [f"var {var_type} {var_name} {class_name} {args}\n"] or
    [f"method {var_name} {method_name} {args}\n"]. *)
Definition serialize (st : Statement) : text :=
  match st with
  | Construct var_type var_name class_name args =>
      "var " ++ var_type ++ " " ++ var_name ++ " " ++ class_name ++ " " ++ repr_list args ++ [LF]
  | Invoke var_name method_name args =>
      "method " ++ var_name ++ " " ++ method_name ++ " " ++ repr_list args ++ [LF]
  end.

(** *** One line of the script *)

(** [[] if not args_string else
     re.sub(__args_pattern, (empty), args_string[1:-1]).split(" ")] *)
Definition parse_args (args_string : text) : list text :=
  match args_string with
  | [] => []
  | _ :: _ => split " " (Re.sub __args_pattern (fun _ => []) (slice_1_m1 args_string))
  end.

(** The body of the [try] in the loop over [code_lines]: the statement of
    a declaration or call line, nothing for any other line. *)
Definition parse_line (line : text) : result (option Statement) :=
  if contains " ::= " line then
    let! var_type := index (split " - " line) 0 in
    let! after_dash := index (split " - " line) 1 in
    let! var_name := index (split " ::= " after_dash) 0 in
    let! after_decl := index (split " ::= " line) 1 in
    let! class_name := index (split " (" after_decl) 0 in
    let! after_decl' := index (split " ::= " line) 1 in
    let args_string := join " " (drop 1 (split_ws after_decl')) in
    let args := parse_args args_string in
    Ok (Some (Construct var_type var_name class_name args))
  else if contains " -> " line then
    let! var_name := index (split " -> " line) 0 in
    let! after_arrow := index (split " -> " line) 1 in
    let! method_name := index (split " (" after_arrow) 0 in
    let! after_arrow' := index (split " -> " line) 1 in
    let args_string := join " " (drop 1 (split_ws after_arrow')) in
    let args := parse_args args_string in
    Ok (Some (Invoke var_name method_name args))
  else Ok None.

(** *** The whole script text *)

(** How the loop over [code_lines] ends: with the statements of all lines,
    with the [SyntaxError at line ...] report of the [except IndexError]
    handler, or with an exception nothing in the loop catches. *)
Inductive outcome :=
| Statements (output : list Statement)
| SyntaxError (line_index : nat)
| Uncaught (e : exn).

Fixpoint parse_lines (full_text : text) (code_lines : list text) (output : list Statement)
    : outcome :=
  match code_lines with
  | [] => Statements output
  | line :: rest =>
      match parse_line line with
      | Ok (Some st) => parse_lines full_text rest (output ++ [st])
      | Ok None => parse_lines full_text rest output
      | Raise IndexError =>
          match list_index line (split [LF] full_text) with
          | Ok i => SyntaxError (i + 1)
          | Raise e => Uncaught e
          end
      | Raise e => Uncaught e
      end
  end.

Definition nonempty (s : text) : bool :=
  match s with
  | [] => false
  | _ :: _ => true
  end.

(** [list(filter(lambda x: x, text_without_comments.split("\n")))] *)
Definition code_lines_of (text_without_comments : text) : list text :=
  filter (fun x => nonempty x = true) (split [LF] text_without_comments).

(** From the text of the script to its statements: comment stripping, line
    splitting and the loop over the lines. *)
Definition normalize (full_text : text) : outcome :=
  let text_without_comments := strip_comments full_text in
  let code_lines := code_lines_of text_without_comments in
  parse_lines full_text code_lines [].

Definition two_lines : text := "T - m ::= C (1 2)" ++ [LF] ++ "m -> go ()".

(** ** [language_rules.py] *)

(** The value [rules] holds for a language: [rule["start"]],
    [rule["code"]["var"]], [rule["code"]["method"]] and [rule["end"]]. *)
Record rule_set := {
  rule_start : text;
  rule_code_var : text;
  rule_code_method : text;
  rule_end : text
}.

Definition cpp_rule : rule_set :=
  {| rule_start := "#include <GGEngine/headers/all.h>" ++ [LF] ++ "using namespace gg;"
                   ++ [LF] ++ [LF] ++ "class Game {" ++ [LF] ++ "public:";
     rule_code_var := [LF; TAB] ++ "{var_type}* {var_name} = new {class_name}({args});";
     rule_code_method := [LF; TAB] ++ "{var_name}->{method_name}({args});";
     rule_end := [LF] ++ "};" |}.

Definition rules : gmap text rule_set := {[ ("cpp" : text) := cpp_rule ]}.

(** ** [convert.py] *)

(** *** [eval] on the literals the intermediate file holds

    [eval] is modelled on list displays of plain string literals, the
    only expressions [parse.py] writes: brackets, items separated by
    commas, spaces between the tokens, quotes of either kind and the
    escapes [\\], [\'], the escaped double quote, [\n], [\r], [\t] and
    [\xhh]; a line break or a null character inside a literal is an error.
    The model is exact where it answers [Ok], and on a display that is cut
    short, where Python raises [SyntaxError].  On any other text it answers
    [Raise EvalError] as well, but there Python may evaluate an expression
    instead, whose value and effects (it can read and write files) the
    model does not follow: nothing below is stated of such text. *)

Inductive eval_state :=
| EvStart                          (* before the opening bracket *)
| EvItem                           (* an item or the closing bracket is due *)
| EvStr (q : ascii) (acc : text)   (* inside a literal opened by [q] *)
| EvEsc (q : ascii) (acc : text)   (* after a backslash *)
| EvHex1 (q : ascii) (acc : text)  (* after [\x] *)
| EvHex2 (q : ascii) (acc : text) (d : nat)
| EvAfter                          (* after an item *)
| EvDone.                          (* after the closing bracket *)

Definition hex_value (c : ascii) : option nat :=
  let n := nat_of_ascii c in
  if ((48 <=? n) && (n <=? 57))%nat then Some (n - 48)
  else if ((97 <=? n) && (n <=? 102))%nat then Some (n - 87)
  else if ((65 <=? n) && (n <=? 70))%nat then Some (n - 55)
  else None.

Fixpoint eval_go (st : eval_state) (items : list text) (s : text) : result (list text) :=
  match s with
  | [] =>
      match st with
      | EvDone => Ok (rev items)
      | _ => Raise EvalError
      end
  | c :: s' =>
      match st with
      | EvStart =>
          if ascii_eqb c SP then eval_go EvStart items s'
          else if ascii_eqb c "["%char then eval_go EvItem items s'
          else Raise EvalError
      | EvItem =>
          if ascii_eqb c SP then eval_go EvItem items s'
          else if ascii_eqb c "]"%char then eval_go EvDone items s'
          else if ascii_eqb c SQ || ascii_eqb c DQ then eval_go (EvStr c []) items s'
          else Raise EvalError
      | EvStr q acc =>
          if ascii_eqb c q then eval_go EvAfter (rev acc :: items) s'
          else if ascii_eqb c BSL then eval_go (EvEsc q acc) items s'
          else if ascii_eqb c LF || ascii_eqb c CR || ascii_eqb c "000"%char
          then Raise EvalError
          else eval_go (EvStr q (c :: acc)) items s'
      | EvEsc q acc =>
          if ascii_eqb c BSL || ascii_eqb c SQ || ascii_eqb c DQ
          then eval_go (EvStr q (c :: acc)) items s'
          else if ascii_eqb c "n"%char then eval_go (EvStr q (LF :: acc)) items s'
          else if ascii_eqb c "r"%char then eval_go (EvStr q (CR :: acc)) items s'
          else if ascii_eqb c "t"%char then eval_go (EvStr q (TAB :: acc)) items s'
          else if ascii_eqb c "x"%char then eval_go (EvHex1 q acc) items s'
          else Raise EvalError
      | EvHex1 q acc =>
          match hex_value c with
          | Some d => eval_go (EvHex2 q acc d) items s'
          | None => Raise EvalError
          end
      | EvHex2 q acc d =>
          match hex_value c with
          | Some d' => eval_go (EvStr q (ascii_of_nat (16 * d + d') :: acc)) items s'
          | None => Raise EvalError
          end
      | EvAfter =>
          if ascii_eqb c SP then eval_go EvAfter items s'
          else if ascii_eqb c ","%char then eval_go EvItem items s'
          else if ascii_eqb c "]"%char then eval_go EvDone items s'
          else Raise EvalError
      | EvDone =>
          if ascii_eqb c SP then eval_go EvDone items s'
          else Raise EvalError
      end
  end.

(** [list(eval(source))] *)
Definition eval_list (source : text) : result (list text) := eval_go EvStart [] source.

(** *** [str.format] with keyword arguments

    Replacement fields [{name}] and the doubled braces that stand for a
    brace.  A name that was not passed raises [KeyError]; a lone closing
    brace or an unclosed field raises [ValueError].  A field that is not a
    plain keyword name (empty, indexed, converted or with a format
    specification) is outside the model, which answers [Raise KeyError]
    there whatever Python does: the model is exact where it answers [Ok],
    and on the templates of [language_rules.py]. *)

Fixpoint lookup_kw (name : text) (kw : list (text * text)) : result text :=
  match kw with
  | [] => Raise KeyError
  | (k, v) :: kw' => if text_eqb k name then Ok v else lookup_kw name kw'
  end.

Definition plain_name_char (c : ascii) : bool :=
  negb (has_char c ("{}!:.[]" : text)).

Fixpoint format_go (kw : list (text * text)) (field : option text) (s : text) : result text :=
  match s with
  | [] =>
      match field with
      | None => Ok []
      | Some _ => Raise ValueError
      end
  | c :: s' =>
      match field with
      | Some name =>
          if ascii_eqb c "}"%char
          then let! v := lookup_kw (rev name) kw in
               let! out := format_go kw None s' in
               Ok (v ++ out)
          else if plain_name_char c then format_go kw (Some (c :: name)) s'
          else Raise KeyError
      | None =>
          if ascii_eqb c "{"%char then
            match s' with
            | c' :: s'' =>
                if ascii_eqb c' "{"%char
                then let! out := format_go kw None s'' in Ok (c :: out)
                else format_go kw (Some []) s'
            | [] => Raise ValueError
            end
          else if ascii_eqb c "}"%char then
            match s' with
            | c' :: s'' =>
                if ascii_eqb c' "}"%char
                then let! out := format_go kw None s'' in Ok (c :: out)
                else Raise ValueError
            | [] => Raise ValueError
            end
          else let! out := format_go kw None s' in Ok (c :: out)
      end
  end.

(** The call [template.format] with the keyword arguments [kw]. *)
Definition format (template : text) (kw : list (text * text)) : result text :=
  format_go kw None template.

(** *** One line of the intermediate file *)

(** What the loop body reads from a line: [code_type] and the fields of a
    [var] or [method] line; nothing for a line of another type. *)
Definition read_statement (line : text) : result (option Statement) :=
  let! code_type := index (split_ws line) 0 in
  if text_eqb code_type "var" then
    let! var_type := index (split_ws line) 1 in
    let! var_name := index (split_ws line) 2 in
    let! class_name := index (split_ws line) 3 in
    let! args := eval_list (join " " (drop 4 (split_ws line))) in
    Ok (Some (Construct var_type var_name class_name args))
  else if text_eqb code_type "method" then
    let! var_name := index (split_ws line) 1 in
    let! method_name := index (split_ws line) 2 in
    let! source := index (split_ws line) 3 in
    let! args := eval_list source in
    Ok (Some (Invoke var_name method_name args))
  else Ok None.

(** The [converted_string] the loop body appends for a statement. *)
Definition render_statement (rule : rule_set) (st : Statement) : result text :=
  match st with
  | Construct var_type var_name class_name args =>
      format (rule_code_var rule)
        [("var_type" : text, var_type); ("var_name" : text, var_name);
         ("class_name" : text, class_name); ("args" : text, join ", " args)]
  | Invoke var_name method_name args =>
      format (rule_code_method rule)
        [("var_name" : text, var_name); ("method_name" : text, method_name);
         ("args" : text, join ", " args)]
  end.

Definition convert_line (rule : rule_set) (line : text) : result text :=
  let! st := read_statement line in
  match st with
  | Some st => render_statement rule st
  | None => Ok []
  end.

(** [f.readlines()] on text: the lines with their terminators. *)
Fixpoint readlines_go (cur : text) (s : text) : list text :=
  match s with
  | [] => emit cur
  | c :: s' =>
      if ascii_eqb c LF then rev (c :: cur) :: readlines_go [] s'
      else readlines_go (c :: cur) s'
  end.

Definition readlines (s : text) : list text := readlines_go [] s.

(** [output_text] after the loop over the lines and the final
    [output_text += rule["end"]]. *)
Definition convert_text (rule : rule_set) (parsed : text) : result text :=
  let! converted := for_each (convert_line rule) (readlines parsed) in
  Ok (rule_start rule ++ concat converted ++ rule_end rule).

(** The statements [convert.py] reads from the intermediate text. *)
Definition deserialize (parsed : text) : result (list Statement) :=
  let! sts := for_each read_statement (readlines parsed) in
  Ok (omap id sts).

(** Rendering a statement sequence: the fold of the loop with the reading
    of the lines taken out. *)
Definition render (rule : rule_set) (sts : list Statement) : result text :=
  let! converted := for_each (render_statement rule) sts in
  Ok (rule_start rule ++ concat converted ++ rule_end rule).

(** ** The scripts as processes

    What a run can observe and change: the files (a flat name space, each
    file holding the characters written to it) and the lines printed.
    Encodings, permissions and directories are left out. *)

Record world := {
  files : gmap text text;
  stdout : list text
}.

(** How a run ends: [sys.exit(code)], or an exception nothing catches. *)
Inductive status :=
| Exit (code : Z)
| Traceback (e : exn).

Definition print (msg : text) (w : world) : world :=
  {| files := files w; stdout := stdout w ++ [msg] |}.

(** [open(path, mode=(w))], [write] or [writelines], [close]. *)
Definition write_file (path content : text) (w : world) : world :=
  {| files := <[path := content]> (files w); stdout := stdout w |}.

(** Text mode reading translates every line ending to a line feed. *)
Fixpoint universal_newlines (s : text) : text :=
  match s with
  | [] => []
  | c :: s' =>
      if ascii_eqb c CR
      then LF :: match s' with
                 | c' :: s'' => if ascii_eqb c' LF then universal_newlines s''
                                else universal_newlines s'
                 | [] => []
                 end
      else c :: universal_newlines s'
  end.

(** [open(path, mode=(r)).read()], [None] for a file that does not exist. *)
Definition read_file (path : text) (w : world) : option text :=
  universal_newlines <$> files w !! path.

Definition str_of_nat (n : nat) : text := NilEmpty.string_of_uint (Nat.to_uint n).

Section Scripts.

(** [from language_rules import rules] *)
Variable rules : gmap text rule_set.

(** [convert(argc, argv)] of [convert.py]. *)
Definition convert_with (argc : nat) (argv : list text) (w : world) : status * world :=
  if (argc =? 1)%nat
  then (Exit (-1), print "No given language to convert and no file to convert chosen" w)
  else if (argc =? 2)%nat
  then (Exit (-1), print "No file to convert chosen" w)
  else
    match index argv 1 with
    | Raise e => (Traceback e, w)
    | Ok language =>
        match rules !! language with
        | None => (Exit (-1), print "Can't convert in that language" w)
        | Some rule =>
            match index argv 2 with
            | Raise e => (Traceback e, w)
            | Ok filename =>
                match read_file filename w with
                | None => (Traceback FileNotFoundError, w)
                | Some parsed =>
                    match convert_text rule parsed with
                    | Raise e => (Traceback e, w)
                    | Ok output_text => (Exit 0, write_file filename output_text w)
                    end
                end
            end
        end
    end.

(** The [try] block of [parse]: the world its [finally] clause finds.
    Whatever happens in the block, [finally] ends the run with
    [sys.exit(0)]. *)
Definition parse_try (convert_to : text) (argv : list text) (w : world) : world :=
  match index argv 1 with
  | Raise _ => w
  | Ok source =>
      match files w !! source with
      | None => print "File is not found" w
      | Some _ =>
          match index argv 2 with
          | Raise _ => w
          | Ok target =>
              let w1 := write_file target [] w in
              let full_text := default [] (read_file source w1) in
              match normalize full_text with
              | Statements output =>
                  let w2 := write_file target (concat (map serialize output)) w1 in
                  if text_eqb convert_to "txt" then w2
                  else
                    match convert_with 3 ["convert.py" : text; convert_to; target] w2 with
                    | (Traceback FileNotFoundError, w3) => print "File is not found" w3
                    | (_, w3) => w3
                    end
              | SyntaxError line_index =>
                  print ("SyntaxError at line " ++ str_of_nat line_index) w1
              | Uncaught _ => w1
              end
          end
      end
  end.

(** [parse(argc, argv)] of [parse.py]. *)
Definition parse_with (argc : nat) (argv : list text) (w : world) : status * world :=
  if (argc =? 1)%nat
  then (Exit (-1), print "No convertible file specified and no file specified for output" w)
  else if (argc =? 2)%nat
  then (Exit (-1), print "No file specified for output" w)
  else if (argc =? 4)%nat then
    match index argv 3 with
    | Raise e => (Traceback e, w)
    | Ok language =>
        if bool_decide (is_Some (rules !! language)) || text_eqb language "txt"
        then (Exit 0, parse_try language argv w)
        else (Exit (-1), print ("Can't convert in " ++ language ++ " language") w)
    end
  else (Exit 0, parse_try "txt" argv w).

End Scripts.

Definition convert := convert_with rules.
Definition parse := parse_with rules.

Definition demo_world : world :=
  {| files := {[ ("demo.gg" : text) := two_lines ]}; stdout := [] |}.

(** ** The scan of [strip_comments], read off the pattern

    The pattern can only match at a quote or at a slash, and what it
    matches there is found by a search to the right: for the first quote
    of the same kind that no backslash precedes, for the first [*/], or
    for the end of the line.  The functions below spell these searches
    out; [match_at_token] proves that they are what the pattern does. *)

(** The number of characters before the first [q] in [s] that no backslash
    precedes; [p] is the character before [s]. *)
Fixpoint find_close (q p : ascii) (s : text) : option nat :=
  match s with
  | [] => None
  | c :: s' =>
      if ascii_eqb c q && negb (ascii_eqb p BSL) then Some 0
      else S <$> find_close q c s'
  end.

(** The number of characters before the first [*/] in [s]. *)
Fixpoint find_block_end (s : text) : option nat :=
  match s with
  | [] => None
  | _ :: s' => if startswith "*/" s then Some 0 else S <$> find_block_end s'
  end.

(** The class [[^\r\n]]. *)
Definition line_char (c : ascii) : bool := negb (ascii_eqb c CR || ascii_eqb c LF).

(** The length of the longest prefix of [s] in that class. *)
Fixpoint line_len (s : text) : nat :=
  match s with
  | [] => 0
  | c :: s' => if line_char c then S (line_len s') else 0
  end.

(** Where [$] matches under [re.MULTILINE]: at the end of the text and
    before a line feed. *)
Definition ends_line (s : text) : bool :=
  match s with
  | [] => true
  | c :: _ => ascii_eqb c LF
  end.

(** What the pattern matches at the start of a text: a quoted literal
    (group 1) or a comment (group 2) of [n] characters. *)
Inductive token :=
| Literal (n : nat)
| Comment (n : nat).

Definition is_quote (c : ascii) : bool := ascii_eqb c DQ || ascii_eqb c SQ.

(** The match of the pattern at the start of [s], by the searches above. *)
Definition comments_token (s : text) : option token :=
  match s with
  | [] => None
  | c :: s' =>
      if is_quote c then (fun k => Literal (2 + k)) <$> find_close c c s'
      else if ascii_eqb c "/" then
        match s' with
        | [] => None
        | c' :: s'' =>
            if ascii_eqb c' "*" then (fun k => Comment (4 + k)) <$> find_block_end s''
            else if ascii_eqb c' "/" then
              (if ends_line (drop (line_len s'') s'') then Some (Comment (2 + line_len s'')) else None)
            else None
        end
      else None
  end.

(** The same as a match object. *)
Definition token_match (s : text) : option Re.match_object :=
  match comments_token s with
  | Some (Literal n) => Some {| Re.span := n; Re.groups := [(1, take n s)] |}
  | Some (Comment n) => Some {| Re.span := n; Re.groups := [(2, take n s)] |}
  | None => None
  end.

Definition cflags := Re.p_flags __comments_pattern.

(** What [match_at] looks at in a final position. *)
Definition rest_of (st : Re.mstate) : text * list (nat * text) := (Re.m_rest st, Re.m_groups st).

(** The four alternatives of the pattern. *)
Definition quoted_literal (q : ascii) : Re.regex :=
  Re.Seq [Re.Chr (Re.Only q); Re.StarLazy Re.Dot; Re.NotBehind BSL; Re.Chr (Re.Only q)].

Definition block_comment : Re.regex := Re.Seq [Re.Str "/*"; Re.StarLazy Re.Dot; Re.Str "*/"].

Definition line_comment : Re.regex := Re.Seq [Re.Str "//"; Re.StarGreedy (Re.NoneOf [CR; LF]); Re.Eol].

(** The match object of a final position [st] reached through group [n]. *)
Definition as_match (s : text) (n : nat) (st : Re.mstate) : Re.match_object :=
  {| Re.span := length s - length (Re.m_rest st);
     Re.groups := (n, take (length s - length (Re.m_rest st)) s) :: Re.m_groups st |}.

(** The replacement function of [strip_comments]. *)
Definition keep_literals (m : Re.match_object) : text :=
  match Re.group m 2 with
  | Some _ => []
  | None => default [] (Re.group m 1)
  end.

(** The last character of [s], or [p] when [s] is empty. *)
Definition last_or (p : ascii) (s : text) : ascii := default p (last s).

(** [s] holds a [q] that no backslash precedes; [p] is the character
    before [s]. *)
Fixpoint unescaped (q p : ascii) (s : text) : bool :=
  match s with
  | [] => false
  | c :: s' => (ascii_eqb c q && negb (ascii_eqb p BSL)) || unescaped q c s'
  end.

(** [body] is the inside of a literal in quotes [q]: a quote placed after
    it is the first one that no backslash precedes. *)
Definition literal_body (q : ascii) (body : text) : bool :=
  negb (unescaped q q body) && negb (ascii_eqb (last_or q body) BSL).

(** The positions at which [Re.sub] looks for a match of
    [__comments_pattern] in [full_text]: the start, the end of every match
    found, and the next character where none is found. *)
Inductive cursor (full_text : text) : option ascii -> text -> Prop :=
| cursor_start :
    cursor full_text None full_text
| cursor_match p t m :
    cursor full_text p t ->
    Re.match_at __comments_pattern p t = Some m ->
    0 < Re.span m ->
    cursor full_text (last (take (Re.span m) t)) (drop (Re.span m) t)
| cursor_char p c t :
    cursor full_text p (c :: t) ->
    Re.match_at __comments_pattern p (c :: t) = None ->
    cursor full_text (Some c) t.

Definition quoted_example : text :=
  "var s - x ::= T (" ++ [DQ] ++ "// not a comment" ++ [DQ] ++ ")".

(** ** What the statements of a script are held to *)



(** No character of [a] is whitespace. *)
Definition whitespace_free (a : text) : bool := forallb (fun c => negb (isspace c)) a.




(** The replacement [re.sub] is given for [__args_pattern]. *)
Definition args_repl (m : Re.match_object) : text := [].

(** Where [$] matches without [re.MULTILINE]: at the end of the text and
    before a line feed that ends it. *)
Definition ends_text (r : text) : bool :=
  match r with
  | [] => true
  | c :: r' => ascii_eqb c LF && bool_decide (r' = [])
  end.


(** ** What the intermediate format can carry *)

(** A field the space-separated line format can hold: not empty and
    without whitespace. *)
Definition field_ok (f : text) : bool := nonempty f && whitespace_free f.

(** [spacing b x] follows the whitespace of [x]: it is [None] when [x]
    holds a whitespace character other than a space, or a space right
    after another one (or at the start, when [b] is set); otherwise it
    tells whether [x] ends in a space ([b] for an empty [x]). *)
Fixpoint spacing (after_space : bool) (x : text) : option bool :=
  match x with
  | [] => Some after_space
  | c :: x' =>
      if isspace c
      then (if ascii_eqb c SP && negb after_space then spacing true x' else None)
      else spacing false x'
  end.

(** No two spaces of [a] are neighbours ([after_space]: nor is its first
    character a space). *)
Fixpoint no_double_space (after_space : bool) (a : text) : bool :=
  match a with
  | [] => true
  | c :: a' =>
      if ascii_eqb c SP then negb after_space && no_double_space true a'
      else no_double_space false a'
  end.

(** Whether [a] ends in a space ([after_space] for an empty [a]). *)
Fixpoint space_state (after_space : bool) (a : text) : bool :=
  match a with
  | [] => after_space
  | c :: a' => space_state (ascii_eqb c SP) a'
  end.

(** The statements the intermediate format carries unchanged. *)
Definition round_trips (st : Statement) : bool :=
  match st with
  | Construct var_type var_name class_name args =>
      field_ok var_type && field_ok var_name && field_ok class_name
      && forallb (no_double_space false) args
  | Invoke receiver method_name args =>
      field_ok receiver && field_ok method_name
      && match args with
         | [] => true
         | [a] => negb (has_char SP a)
         | _ :: _ :: _ => false
         end
  end.

Definition round_trip_example : list Statement :=
  [Construct "GameObject*" "hero" "GameObject" ["'hero name'" : text; [DQ; BSL; TAB; DQ]];
   Invoke "scene" "addGameObject" ["hero" : text];
   Invoke "manager" "run" []].

(** ** Script lines written from their parts, and what else the
    properties speak of *)

(** The argument list of a script line as it is written: nothing, or the
    arguments between parentheses, a space apart. *)
Definition args_suffix (args : list text) : text :=
  match args with
  | [] => []
  | _ :: _ => " (" ++ join " " args ++ ")"
  end.

(** A call line and a declaration line, written from their parts. *)
Definition call_line (receiver method_name : text) (args : list text) : text :=
  receiver ++ " -> " ++ method_name ++ args_suffix args.

Definition declaration_line (var_type var_name class_name : text) (args : list text) : text :=
  var_type ++ " - " ++ var_name ++ " ::= " ++ class_name ++ args_suffix args.

(** The number of line feeds of a text. *)
Definition count_lf (s : text) : nat := length (filter (fun c => c = LF) s).

(** What the [cpp] templates make of a statement. *)
Definition cpp_statement (st : Statement) : text :=
  match st with
  | Construct var_type var_name class_name args =>
      [LF; TAB] ++ var_type ++ "* " ++ var_name ++ " = new " ++ class_name
      ++ "(" ++ join ", " args ++ ");"
  | Invoke var_name method_name args =>
      [LF; TAB] ++ var_name ++ "->" ++ method_name ++ "(" ++ join ", " args ++ ");"
  end.

(** A line of whitespace only. *)
Definition blank (line : text) : bool := forallb isspace line.

(** ** Inputs the properties below are checked on *)

Definition idempotence_example : text :=
  "a /* b */ c // d" ++ [LF] ++ "x = '// e' /* f" ++ [LF] ++ "g */ h".

Definition seven_lines : text :=
  "/*" ++ [LF] ++ "x ::= y" ++ [LF] ++ "*/" ++ [LF] ++ "a -> b" ++ [LF]
  ++ "// c" ++ [LF] ++ [LF] ++ "x ::= y".

Definition seven_world : world :=
  {| files := {[ ("seven.gg" : text) := seven_lines ]}; stdout := [] |}.

Definition claimed_statements : list Statement :=
  [Construct "T" "m" "C" ["1" : text; "2" : text]; Invoke "m" "go" []].

Definition claimed_rendering : text :=
  rule_start cpp_rule ++ [LF; TAB] ++ "T* m = new C(1, 2);"
  ++ [LF; TAB] ++ "m->go();" ++ rule_end cpp_rule.

Definition busy_world : world :=
  {| files := {[ ("demo.gg" : text) := two_lines;
                 ("out.txt" : text) := "method m go []" ++ [LF];
                 ("other" : text) := ("x" : text) ]};
     stdout := ["earlier" : text] |}.

Definition quiet_world : world :=
  {| files := {[ ("out.txt" : text) := "method m go []" ++ [LF] ]}; stdout := [] |}.

Definition line_comments_example : text :=
  "a -> b // one" ++ [LF] ++ "// two" ++ [LF] ++ "c -> d ('// three')".

Definition converted_world : world :=
  {| files := {[ ("demo.txt" : text) :=
                   rule_start cpp_rule ++ [LF; TAB] ++ "T* m = new C(1, 2);"
                   ++ [LF; TAB] ++ "m->go();" ++ rule_end cpp_rule ]};
     stdout := [] |}.

(** * Properties *)

(** ** The primitives on small inputs *)

Example split_ex1 : split " - " "T - m ::= C (1 2)" = ["T" : text; "m ::= C (1 2)" : text].
Proof. reflexivity. Qed.

Example split_ex2 : split " - " "a - " = ["a" : text; []].
Proof. reflexivity. Qed.

Example split_ws_ex1 : split_ws "C  (1   2) " = ["C" : text; "(1" : text; "2)" : text].
Proof. reflexivity. Qed.

Example join_ex1 : join ", " ["1" : text; "2" : text] = "1, 2".
Proof. reflexivity. Qed.

Example slice_ex1 : slice_1_m1 ("(1 2)" : text) = "1 2".
Proof. reflexivity. Qed.

Example slice_ex2 : slice_1_m1 ("(" : text) = [].
Proof. reflexivity. Qed.

Example strip_ex1 :
  strip_comments "a /* b */ c // d" = "a  c ".
Proof. vm_compute. reflexivity. Qed.

Example strip_ex2 :
  strip_comments ("x = " ++ [DQ] ++ "/* a */" ++ [DQ] ++ " /* " ++ [DQ] ++ " */ // c")
  = "x = " ++ [DQ] ++ "/* a */" ++ [DQ] ++ "  ".
Proof. vm_compute. reflexivity. Qed.

Example normalize_ex0 :
  normalize ("A* - a ::= B" ++ [LF] ++ "// c" ++ [LF] ++ "a -> f (x y z)")
  = Statements [Construct "A*" "a" "B" []; Invoke "a" "f" ["x" : text; "y" : text; "z" : text]].
Proof. vm_compute. reflexivity. Qed.

Example parse_demo_txt :
  files (snd (parse 3 ["parse.py" : text; "demo.gg" : text; "demo.txt" : text] demo_world))
    !! ("demo.txt" : text)
  = Some ("var T m C ['1', '2']" ++ [LF] ++ "method m go ['']" ++ [LF]).
Proof. vm_compute. reflexivity. Qed.

Example parse_demo_cpp :
  files (snd (parse 4 ["parse.py" : text; "demo.gg" : text; "demo.txt" : text; "cpp" : text]
                demo_world))
    !! ("demo.txt" : text)
  = Some (rule_start cpp_rule ++ [LF; TAB] ++ "T* m = new C(1, 2);"
          ++ [LF; TAB] ++ "m->go();" ++ rule_end cpp_rule).
Proof. vm_compute. reflexivity. Qed.

(** ** The comment pattern and the scan it drives *)

Lemma ascii_eqb_eq a b : ascii_eqb a b = true <-> a = b.
Proof. apply Ascii.eqb_eq. Qed.

Lemma ascii_eqb_refl a : ascii_eqb a a = true.
Proof. apply Ascii.eqb_refl. Qed.

Lemma ascii_eqb_sym a b : ascii_eqb a b = ascii_eqb b a.
Proof. apply Ascii.eqb_sym. Qed.

Lemma ascii_eqb_neq a b : ascii_eqb a b = false <-> a <> b.
Proof. apply Ascii.eqb_neq. Qed.

Lemma star_lazy_dot_cons (f : Re.mstate -> list Re.mstate) g p c s :
  flat_map f (Re.star_lazy cflags Re.Dot g p (c :: s))
  = f (Re.MState p (c :: s) g) ++ flat_map f (Re.star_lazy cflags Re.Dot g (Some c) s).
Proof. reflexivity. Qed.

Lemma star_lazy_dot_nil (f : Re.mstate -> list Re.mstate) g p :
  flat_map f (Re.star_lazy cflags Re.Dot g p []) = f (Re.MState p [] g).
Proof. cbn. apply app_nil_r. Qed.

Lemma rmatch_close q p s g :
  Re.rmatch cflags (Re.Cat (Re.NotBehind BSL) (Re.Chr (Re.Only q))) (Re.MState (Some p) s g)
  = match s with
    | c :: s' => if ascii_eqb c q && negb (ascii_eqb p BSL)
                 then [Re.MState (Some c) s' g] else []
    | [] => []
    end.
Proof.
  cbn. destruct (ascii_eqb p BSL); cbn.
  - destruct s; [reflexivity|]. now rewrite andb_false_r.
  - destruct s as [|c s]; [reflexivity|]. rewrite (ascii_eqb_sym q c), andb_true_r.
    destruct (ascii_eqb c q); reflexivity.
Qed.

Lemma rmatch_str2 a b p s g :
  Re.rmatch cflags (Re.Str [a; b]) (Re.MState p s g)
  = match s with
    | c1 :: c2 :: s' => if ascii_eqb a c1 && ascii_eqb b c2
                        then [Re.MState (Some c2) s' g] else []
    | _ => []
    end.
Proof.
  cbn. destruct s as [|c1 s]; [reflexivity|].
  destruct (ascii_eqb a c1); cbn; [|now destruct s].
  destruct s as [|c2 s]; [reflexivity|].
  destruct (ascii_eqb b c2); reflexivity.
Qed.

Lemma quote_tail q g p s :
  rest_of <$> head (flat_map (Re.rmatch cflags (Re.Cat (Re.NotBehind BSL) (Re.Chr (Re.Only q))))
                      (Re.star_lazy cflags Re.Dot g (Some p) s))
  = (fun k => (drop (S k) s, g)) <$> find_close q p s.
Proof.
  revert p. induction s as [|c s IH]; intros p.
  - rewrite star_lazy_dot_nil, rmatch_close. reflexivity.
  - rewrite star_lazy_dot_cons, rmatch_close. cbn [find_close].
    destruct (ascii_eqb c q && negb (ascii_eqb p BSL)) eqn:E.
    + apply andb_true_iff in E as [E _]. apply ascii_eqb_eq in E. now subst.
    + cbn [app]. rewrite IH. destruct (find_close q c s); reflexivity.
Qed.

Lemma rmatch_quoted_nil q prev g s :
  match s with c :: _ => c <> q | [] => True end ->
  Re.rmatch cflags (quoted_literal q) (Re.MState prev s g) = [].
Proof.
  intros H. destruct s as [|c s]; [reflexivity|].
  cbn. apply ascii_eqb_neq in H. rewrite (ascii_eqb_sym q c), H. reflexivity.
Qed.

Lemma rmatch_quoted q prev g s :
  rest_of <$> head (Re.rmatch cflags (quoted_literal q) (Re.MState prev (q :: s) g))
  = (fun k => (drop (S k) s, g)) <$> find_close q q s.
Proof.
  unfold quoted_literal. cbn [Re.Seq].
  change (Re.rmatch cflags (Re.Cat ?a ?b) ?st) with (flat_map (Re.rmatch cflags b) (Re.rmatch cflags a st)).
  cbn [Re.rmatch Re.m_rest Re.m_prev Re.m_groups Re.in_class].
  rewrite ascii_eqb_refl. cbn [flat_map]. rewrite app_nil_r.
  change (Re.rmatch cflags (Re.Cat ?a ?b) ?st) with (flat_map (Re.rmatch cflags b) (Re.rmatch cflags a st)).
  apply quote_tail.
Qed.

Lemma block_tail g p s :
  rest_of <$> head (flat_map (Re.rmatch cflags (Re.Str "*/")) (Re.star_lazy cflags Re.Dot g p s))
  = (fun k => (drop (k + 2) s, g)) <$> find_block_end s.
Proof.
  revert p. induction s as [|c s IH]; intros p.
  - reflexivity.
  - rewrite star_lazy_dot_cons.
    change (list_ascii_of_string "*/") with ["*"%char; "/"%char].
    rewrite rmatch_str2. cbn [find_block_end startswith].
    change (list_ascii_of_string "*/") with ["*"%char; "/"%char].
    cbn [startswith].
    destruct s as [|c2 s].
    + rewrite andb_false_r. reflexivity.
    + rewrite andb_true_r.
      destruct (ascii_eqb "*" c && ascii_eqb "/" c2) eqn:E.
      * reflexivity.
      * cbn [app].
        change (["*"%char; "/"%char]) with (list_ascii_of_string "*/").
        rewrite IH. destruct (find_block_end (c2 :: s)); reflexivity.
Qed.

Lemma rmatch_block prev g s :
  rest_of <$> head (Re.rmatch cflags block_comment (Re.MState prev s g))
  = match s with
    | c1 :: c2 :: s' =>
        if ascii_eqb "/" c1 && ascii_eqb "*" c2
        then (fun k => (drop (k + 2) s', g)) <$> find_block_end s'
        else None
    | _ => None
    end.
Proof.
  unfold block_comment. cbn [Re.Seq].
  change (Re.rmatch cflags (Re.Cat ?a ?b) ?st) with (flat_map (Re.rmatch cflags b) (Re.rmatch cflags a st)).
  change (list_ascii_of_string "/*") with ["/"%char; "*"%char].
  rewrite rmatch_str2.
  destruct s as [|c1 [|c2 s]]; try reflexivity.
  destruct (ascii_eqb "/" c1 && ascii_eqb "*" c2); [|reflexivity].
  cbn [flat_map]. rewrite app_nil_r.
  change (Re.rmatch cflags (Re.Cat ?a ?b) ?st) with (flat_map (Re.rmatch cflags b) (Re.rmatch cflags a st)).
  apply block_tail.
Qed.

Lemma rmatch_block_nil prev g s :
  match s with c1 :: c2 :: _ => c1 <> "/"%char \/ c2 <> "*"%char | _ => True end ->
  Re.rmatch cflags block_comment (Re.MState prev s g) = [].
Proof.
  intros H. unfold block_comment. cbn [Re.Seq].
  change (Re.rmatch cflags (Re.Cat ?a ?b) ?st) with (flat_map (Re.rmatch cflags b) (Re.rmatch cflags a st)).
  change (list_ascii_of_string "/*") with ["/"%char; "*"%char].
  rewrite rmatch_str2.
  destruct s as [|c1 [|c2 s]]; try reflexivity.
  destruct H as [H|H]; apply ascii_eqb_neq in H;
    [rewrite (ascii_eqb_sym "/" c1) | rewrite (ascii_eqb_sym "*" c2)];
    rewrite H, ?andb_false_r; reflexivity.
Qed.

Lemma star_greedy_line g p s :
  Re.star_greedy cflags (Re.NoneOf [CR; LF]) g p s
  = match s with
    | c :: s' => if line_char c then Re.star_greedy cflags (Re.NoneOf [CR; LF]) g (Some c) s' else []
    | [] => []
    end ++ [Re.MState p s g].
Proof.
  destruct s as [|c s]; [reflexivity|].
  cbn [Re.star_greedy]. unfold line_char. cbn [Re.in_class existsb].
  rewrite orb_false_r. reflexivity.
Qed.

Lemma eol_after_line_char p c s g :
  line_char c = true ->
  Re.rmatch cflags Re.Eol (Re.MState p (c :: s) g) = [].
Proof.
  intros H. cbn. unfold line_char in H.
  destruct (ascii_eqb c LF); [|reflexivity].
  rewrite orb_true_r in H. discriminate.
Qed.

Lemma line_tail g p s :
  rest_of <$> head (flat_map (Re.rmatch cflags Re.Eol) (Re.star_greedy cflags (Re.NoneOf [CR; LF]) g p s))
  = if ends_line (drop (line_len s) s) then Some (drop (line_len s) s, g) else None.
Proof.
  revert p. induction s as [|c s IH]; intros p.
  - reflexivity.
  - rewrite star_greedy_line. cbn [line_len].
    destruct (line_char c) eqn:Hc.
    + rewrite flat_map_app. cbn [drop].
      specialize (IH (Some c)).
      destruct (flat_map (Re.rmatch cflags Re.Eol) (Re.star_greedy cflags (Re.NoneOf [CR; LF]) g (Some c) s)) as [|st l] eqn:E.
      * cbn [app flat_map]. rewrite eol_after_line_char by assumption.
        cbn in IH. destruct (ends_line (drop (line_len s) s)); [discriminate|reflexivity].
      * exact IH.
    + cbn [app flat_map drop line_len]. cbn [Re.rmatch Re.at_eol Re.m_rest].
      change (Re.MULTILINE cflags) with true. rewrite orb_true_l, andb_true_r.
      cbn [ends_line]. destruct (ascii_eqb c LF); reflexivity.
Qed.

Lemma rmatch_line prev g s :
  rest_of <$> head (Re.rmatch cflags line_comment (Re.MState prev s g))
  = match s with
    | c1 :: c2 :: s' =>
        if ascii_eqb "/" c1 && ascii_eqb "/" c2
        then (if ends_line (drop (line_len s') s') then Some (drop (line_len s') s', g) else None)
        else None
    | _ => None
    end.
Proof.
  unfold line_comment. cbn [Re.Seq].
  change (Re.rmatch cflags (Re.Cat ?a ?b) ?st) with (flat_map (Re.rmatch cflags b) (Re.rmatch cflags a st)).
  change (list_ascii_of_string "//") with ["/"%char; "/"%char].
  rewrite rmatch_str2.
  destruct s as [|c1 [|c2 s]]; try reflexivity.
  destruct (ascii_eqb "/" c1 && ascii_eqb "/" c2); [|reflexivity].
  cbn [flat_map]. rewrite app_nil_r.
  change (Re.rmatch cflags (Re.Cat ?a ?b) ?st) with (flat_map (Re.rmatch cflags b) (Re.rmatch cflags a st)).
  apply line_tail.
Qed.

Lemma rmatch_line_nil prev g s :
  match s with c1 :: c2 :: _ => c1 <> "/"%char \/ c2 <> "/"%char | _ => True end ->
  Re.rmatch cflags line_comment (Re.MState prev s g) = [].
Proof.
  intros H. unfold line_comment. cbn [Re.Seq].
  change (Re.rmatch cflags (Re.Cat ?a ?b) ?st) with (flat_map (Re.rmatch cflags b) (Re.rmatch cflags a st)).
  change (list_ascii_of_string "//") with ["/"%char; "/"%char].
  rewrite rmatch_str2.
  destruct s as [|c1 [|c2 s]]; try reflexivity.
  destruct H as [H|H]; apply ascii_eqb_neq in H;
    [rewrite (ascii_eqb_sym "/" c1) | rewrite (ascii_eqb_sym "/" c2)];
    rewrite H, ?andb_false_r; reflexivity.
Qed.

Lemma find_close_lt q p s k : find_close q p s = Some k -> k < length s.
Proof.
  revert p k. induction s as [|c s IH]; intros p k; cbn; [discriminate|].
  destruct (ascii_eqb c q && negb (ascii_eqb p BSL)).
  - intros [= <-]. lia.
  - destruct (find_close q c s) as [k'|] eqn:E; [|discriminate].
    intros [= <-]. apply IH in E. lia.
Qed.

Lemma find_block_end_lt s k : find_block_end s = Some k -> k + 2 <= length s.
Proof.
  revert k. induction s as [|c s IH]; intros k; [discriminate|].
  cbn [find_block_end].
  destruct (startswith "*/" (c :: s)) eqn:E.
  - intros [= <-]. destruct s; cbn in E; [now rewrite andb_false_r in E|]. cbn. lia.
  - destruct (find_block_end s) as [k'|] eqn:E'; [|discriminate].
    intros [= <-]. specialize (IH _ eq_refl). cbn. lia.
Qed.

Lemma line_len_le s : line_len s <= length s.
Proof. induction s as [|c s IH]; cbn; [lia|]. destruct (line_char c); cbn; lia. Qed.

Lemma match_at_comments prev s :
  Re.match_at __comments_pattern prev s
  = match head (Re.rmatch cflags (Re.Alt (quoted_literal DQ) (quoted_literal SQ)) (Re.MState prev s [])) with
    | Some st => Some (as_match s 1 st)
    | None => as_match s 2 <$> head (Re.rmatch cflags (Re.Alt block_comment line_comment) (Re.MState prev s []))
    end.
Proof.
  unfold Re.match_at.
  change (Re.rmatch (Re.p_flags __comments_pattern) (Re.p_regex __comments_pattern) ?st)
    with (map (fun st' => Re.MState (Re.m_prev st') (Re.m_rest st')
                 ((1, Re.consumed st st') :: Re.m_groups st'))
            (Re.rmatch cflags (Re.Alt (quoted_literal DQ) (quoted_literal SQ)) st)
          ++ map (fun st' => Re.MState (Re.m_prev st') (Re.m_rest st')
                 ((2, Re.consumed st st') :: Re.m_groups st'))
            (Re.rmatch cflags (Re.Alt block_comment line_comment) st)).
  destruct (Re.rmatch cflags (Re.Alt (quoted_literal DQ) (quoted_literal SQ)) (Re.MState prev s [])) as [|st l].
  - cbn [map app head].
    destruct (Re.rmatch cflags (Re.Alt block_comment line_comment) (Re.MState prev s [])) as [|st l]; reflexivity.
  - reflexivity.
Qed.

Lemma head_rest_of (l : list Re.mstate) r g :
  rest_of <$> head l = Some (r, g) ->
  exists st, head l = Some st /\ Re.m_rest st = r /\ Re.m_groups st = g.
Proof.
  destruct l as [|st l]; [discriminate|]. cbn. intros [= <- <-]. eauto.
Qed.

Lemma head_rest_of_none (l : list Re.mstate) :
  rest_of <$> head l = None -> l = [].
Proof. destruct l; [reflexivity|discriminate]. Qed.

Lemma is_quote_cases c : is_quote c = true -> c = DQ \/ c = SQ.
Proof.
  unfold is_quote. intros H. apply orb_true_iff in H as [H|H]; apply ascii_eqb_eq in H; auto.
Qed.

Lemma length_drop_sub {A} (s : list A) n : n <= length s -> length s - length (drop n s) = n.
Proof. intros H. rewrite length_drop. lia. Qed.

Lemma match_at_token prev s : Re.match_at __comments_pattern prev s = token_match s.
Proof.
  rewrite match_at_comments. unfold token_match, comments_token.
  destruct s as [|c s].
  { reflexivity. }
  destruct (is_quote c) eqn:Hq.
  - (* a quote *)
    assert (Hslash : c <> "/"%char).
    { apply is_quote_cases in Hq as [-> | ->]; discriminate. }
    assert (Hhead : rest_of <$> head (Re.rmatch cflags (Re.Alt (quoted_literal DQ) (quoted_literal SQ))
                                        (Re.MState prev (c :: s) []))
                    = (fun k => (drop (S k) s, [])) <$> find_close c c s).
    { cbn [Re.rmatch].
      apply is_quote_cases in Hq as [-> | ->].
      - rewrite (rmatch_quoted_nil SQ) by discriminate. rewrite app_nil_r.
        apply rmatch_quoted.
      - rewrite (rmatch_quoted_nil DQ) by discriminate. cbn [app].
        apply rmatch_quoted. }
    destruct (find_close c c s) as [k|] eqn:Hk.
    + apply head_rest_of in Hhead as (st & -> & Hr & Hg).
      pose proof (find_close_lt _ _ _ _ Hk) as Hlt.
      unfold as_match. rewrite Hr, Hg.
      change (drop (S k) s) with (drop (S (S k)) (c :: s)).
      rewrite length_drop_sub by (cbn; lia).
      reflexivity.
    + apply head_rest_of_none in Hhead. rewrite Hhead. cbn [head].
      cbn [Re.rmatch]. rewrite rmatch_block_nil, rmatch_line_nil; [reflexivity | |];
        destruct s; auto.
  - (* not a quote *)
    assert (Hnq : Re.rmatch cflags (Re.Alt (quoted_literal DQ) (quoted_literal SQ)) (Re.MState prev (c :: s) []) = []).
    { cbn [Re.rmatch]. unfold is_quote in Hq. apply orb_false_iff in Hq as [H1 H2].
      apply ascii_eqb_neq in H1, H2.
      rewrite !rmatch_quoted_nil by assumption. reflexivity. }
    rewrite Hnq. cbn [head].
    destruct (ascii_eqb c "/") eqn:Hc.
    + apply ascii_eqb_eq in Hc. subst c.
      destruct s as [|c' s].
      { reflexivity. }
      destruct (ascii_eqb c' "*") eqn:Hstar.
      * apply ascii_eqb_eq in Hstar. subst c'.
        pose proof (rmatch_block prev [] ("/"%char :: "*"%char :: s)) as Hb.
        cbn [ascii_eqb Ascii.eqb Bool.eqb andb] in Hb.
        cbn [Re.rmatch]. rewrite (rmatch_line_nil _ _ ("/"%char :: "*"%char :: s)), app_nil_r
          by (right; discriminate).
        destruct (find_block_end s) as [k|] eqn:Hk.
        -- apply head_rest_of in Hb as (st & -> & Hr & Hg).
           pose proof (find_block_end_lt _ _ Hk) as Hlt.
           cbn [fmap option_fmap option_map].
           unfold as_match. rewrite Hr, Hg.
           change (drop (k + 2) s) with (drop (S (S (k + 2))) ("/"%char :: "*"%char :: s)).
           rewrite length_drop_sub by (cbn; lia).
           replace (k + 2) with (2 + k) by lia. reflexivity.
        -- apply head_rest_of_none in Hb. rewrite Hb. reflexivity.
      * destruct (ascii_eqb c' "/") eqn:Hsl.
        -- apply ascii_eqb_eq in Hsl. subst c'.
           pose proof (rmatch_line prev [] ("/"%char :: "/"%char :: s)) as Hl.
           cbn [ascii_eqb Ascii.eqb Bool.eqb andb] in Hl.
           cbn [Re.rmatch]. rewrite (rmatch_block_nil _ _ ("/"%char :: "/"%char :: s))
             by (right; discriminate).
           cbn [app].
           destruct (ends_line (drop (line_len s) s)) eqn:He.
           ++ apply head_rest_of in Hl as (st & -> & Hr & Hg).
              pose proof (line_len_le s) as Hle.
              cbn [fmap option_fmap option_map].
              unfold as_match. rewrite Hr, Hg.
              change (drop (line_len s) s)
                with (drop (S (S (line_len s))) ("/"%char :: "/"%char :: s)).
              rewrite length_drop_sub by (cbn; lia).
              reflexivity.
           ++ apply head_rest_of_none in Hl. rewrite Hl. reflexivity.
        -- apply ascii_eqb_neq in Hstar, Hsl.
           cbn [Re.rmatch]. rewrite rmatch_block_nil, rmatch_line_nil by auto. reflexivity.
    + apply ascii_eqb_neq in Hc.
      cbn [Re.rmatch]. rewrite rmatch_block_nil, rmatch_line_nil; [reflexivity | |];
        destruct s; auto.
Qed.

Lemma strip_comments_unfold s :
  strip_comments s = Re.sub_scan __comments_pattern keep_literals 0 None s.
Proof. reflexivity. Qed.

Lemma sub_scan_prev k p1 p2 s :
  Re.sub_scan __comments_pattern keep_literals k p1 s
  = Re.sub_scan __comments_pattern keep_literals k p2 s.
Proof.
  destruct s as [|c s]; destruct k as [|k]; cbn [Re.sub_scan]; try reflexivity;
    now rewrite !match_at_token.
Qed.

Lemma sub_scan_skip k p s :
  Re.sub_scan __comments_pattern keep_literals k p s = strip_comments (drop k s).
Proof.
  revert k p. induction s as [|c s IH]; intros k p.
  - rewrite drop_nil. destruct k; [apply sub_scan_prev | reflexivity].
  - destruct k as [|k].
    + apply sub_scan_prev.
    + cbn [Re.sub_scan drop]. apply IH.
Qed.

Lemma comments_token_ge2 s tk :
  comments_token s = Some tk ->
  match tk with Literal n | Comment n => 2 <= n <= length s end.
Proof.
  unfold comments_token. destruct s as [|c s]; [discriminate|].
  destruct (is_quote c).
  - destruct (find_close c c s) as [k|] eqn:E; [|discriminate].
    intros [= <-]. apply find_close_lt in E. cbn. lia.
  - destruct (ascii_eqb c "/"); [|discriminate].
    destruct s as [|c' s]; [discriminate|].
    destruct (ascii_eqb c' "*").
    + destruct (find_block_end s) as [k|] eqn:E; [|discriminate].
      intros [= <-]. apply find_block_end_lt in E. cbn. lia.
    + destruct (ascii_eqb c' "/"); [|discriminate].
      destruct (ends_line _); [|discriminate].
      intros [= <-]. pose proof (line_len_le s). cbn. lia.
Qed.

(** The scan, one token at a time. *)
Lemma strip_comments_step s :
  strip_comments s
  = match comments_token s with
    | Some (Literal n) => take n s ++ strip_comments (drop n s)
    | Some (Comment n) => strip_comments (drop n s)
    | None => match s with
              | [] => []
              | c :: s' => c :: strip_comments s'
              end
    end.
Proof.
  rewrite strip_comments_unfold at 1.
  destruct s as [|c s].
  - reflexivity.
  - cbn [Re.sub_scan]. rewrite match_at_token. unfold token_match.
    destruct (comments_token (c :: s)) as [[n|n]|] eqn:E.
    + apply comments_token_ge2 in E. destruct n as [|n]; [lia|].
      cbn [Re.span]. rewrite sub_scan_skip. reflexivity.
    + apply comments_token_ge2 in E. destruct n as [|n]; [lia|].
      cbn [Re.span]. rewrite sub_scan_skip. reflexivity.
    + rewrite sub_scan_skip. reflexivity.
Qed.

(** ** Comment stripping twice *)

Lemma last_or_cons p c s : last_or p (c :: s) = last_or c s.
Proof.
  unfold last_or. destruct s as [|c' s]; [reflexivity|].
  rewrite last_cons_cons. destruct (last (c' :: s)) eqn:E; [reflexivity|].
  apply last_None in E. discriminate.
Qed.

Lemma find_close_app q p a b :
  find_close q p (a ++ b)
  = match find_close q p a with
    | Some k => Some k
    | None => (fun k => length a + k) <$> find_close q (last_or p a) b
    end.
Proof.
  revert p. induction a as [|c a IH]; intros p.
  - cbn. unfold last_or. cbn. destruct (find_close q p b); reflexivity.
  - cbn [app find_close]. destruct (ascii_eqb c q && negb (ascii_eqb p BSL)); [reflexivity|].
    rewrite IH, last_or_cons.
    destruct (find_close q c a); [reflexivity|].
    destruct (find_close q (last_or c a) b); reflexivity.
Qed.

Lemma find_close_app_none q p a b :
  find_close q p (a ++ b) = None
  <-> find_close q p a = None /\ find_close q (last_or p a) b = None.
Proof.
  rewrite find_close_app. destruct (find_close q p a).
  - split; [discriminate | intros [? _]; discriminate].
  - destruct (find_close q (last_or p a) b); cbn; split; try tauto; try discriminate.
    intros [_ ?]; discriminate.
Qed.

Lemma find_close_prev q a b s :
  a <> BSL \/ head s <> Some q ->
  find_close q a s = None -> find_close q b s = None.
Proof.
  destruct s as [|c s]; [reflexivity|]. cbn.
  intros H. destruct (ascii_eqb c q) eqn:Hc.
  - apply ascii_eqb_eq in Hc. subst c.
    destruct H as [H|H]; [|congruence].
    apply ascii_eqb_neq in H. rewrite H. discriminate.
  - cbn. auto.
Qed.

Lemma find_close_take q p r k x :
  find_close q p r = Some k -> find_close q p (take (S k) r ++ x) = Some k.
Proof.
  revert p k. induction r as [|c r IH]; intros p k; [discriminate|].
  cbn [find_close]. destruct (ascii_eqb c q && negb (ascii_eqb p BSL)) eqn:E.
  - intros [= <-]. cbn. now rewrite E.
  - destruct (find_close q c r) as [k'|] eqn:E'; [|discriminate].
    intros [= <-]. cbn [take app find_close]. rewrite E.
    now rewrite (IH _ _ E').
Qed.

Lemma find_block_end_app_none a b :
  find_block_end (a ++ b) = None
  <-> find_block_end a = None /\ find_block_end b = None
      /\ ~ (last a = Some "*"%char /\ head b = Some "/"%char).
Proof.
  induction a as [|c a IH].
  - cbn. split; [intros H; repeat split; auto; intros [? _]; discriminate | tauto].
  - cbn [app find_block_end].
    change (list_ascii_of_string "*/") with ["*"%char; "/"%char]. cbn [startswith].
    destruct a as [|c2 a].
    + cbn [app find_block_end fmap option_fmap option_map last].
      rewrite andb_false_r.
      destruct b as [|d b].
      * cbn. rewrite andb_false_r. split; [intros _; repeat split; auto; intros [_ ?]; discriminate|reflexivity].
      * cbn [head]. rewrite andb_true_r.
        destruct (ascii_eqb "*" c) eqn:E1, (ascii_eqb "/" d) eqn:E2; cbn [andb].
        -- apply ascii_eqb_eq in E1, E2. subst. split; [discriminate|].
           intros (_ & _ & H). exfalso. apply H. auto.
        -- apply ascii_eqb_neq in E2.
           destruct (find_block_end (d :: b)) eqn:Eb; cbn; split; try tauto; try discriminate.
           ++ intros (_ & ? & _). discriminate.
           ++ intros _. repeat split; auto. intros [_ [= ->]]. congruence.
        -- apply ascii_eqb_neq in E1.
           destruct (find_block_end (d :: b)) eqn:Eb; cbn; split; try tauto; try discriminate.
           ++ intros (_ & ? & _). discriminate.
           ++ intros _. repeat split; auto. intros [[= ->] _]. congruence.
        -- apply ascii_eqb_neq in E1.
           destruct (find_block_end (d :: b)) eqn:Eb; cbn; split; try tauto; try discriminate.
           ++ intros (_ & ? & _). discriminate.
           ++ intros _. repeat split; auto. intros [[= ->] _]. congruence.
    + change ((c2 :: a) ++ b) with (c2 :: a ++ b) in *. cbn [app].
      rewrite last_cons_cons.
      destruct (ascii_eqb "*" c && (ascii_eqb "/" c2 && true)).
      * split; [discriminate | intros [? _]; discriminate].
      * destruct (find_block_end (c2 :: a ++ b)) eqn:E1.
        -- split; [discriminate|]. intros (H1 & H2 & H3).
           destruct (find_block_end (c2 :: a)) eqn:E2; [discriminate|].
           destruct IH as [_ IH]. discriminate IH. auto.
        -- destruct IH as [IH _]. destruct (IH eq_refl) as (H1 & H2 & H3).
           rewrite H1. cbn. tauto.
Qed.

Lemma comments_token_start s tk :
  comments_token s = Some tk ->
  match tk with
  | Literal _ => exists q r, s = q :: r /\ is_quote q = true
  | Comment _ => exists r, s = "/"%char :: r
  end.
Proof.
  unfold comments_token. destruct s as [|c s]; [discriminate|].
  destruct (is_quote c) eqn:Hq.
  - destruct (find_close c c s); [|discriminate]. intros [= <-]. eauto.
  - destruct (ascii_eqb c "/") eqn:Hc; [|discriminate].
    apply ascii_eqb_eq in Hc. subst c.
    destruct s as [|c' s]; [discriminate|].
    destruct (ascii_eqb c' "*").
    + destruct (find_block_end s); [|discriminate]. intros [= <-]. eauto.
    + destruct (ascii_eqb c' "/"); [|discriminate].
      destruct (ends_line _); [|discriminate]. intros [= <-]. eauto.
Qed.

Lemma head_strip_comments s :
  head s <> Some "/"%char -> head (strip_comments s) = head s.
Proof.
  intros H. rewrite strip_comments_step.
  destruct (comments_token s) as [[n|n]|] eqn:E.
  - pose proof (comments_token_ge2 _ _ E) as Hn. cbn in Hn.
    destruct s as [|c s]; [discriminate|]. destruct n as [|n]; [lia|]. reflexivity.
  - apply comments_token_start in E as [r ->]. now destruct H.
  - destruct s; reflexivity.
Qed.

Lemma find_block_end_lookup s k :
  find_block_end s = Some k -> s !! k = Some "*"%char /\ s !! S k = Some "/"%char.
Proof.
  revert k. induction s as [|c s IH]; intros k; [discriminate|].
  cbn [find_block_end].
  change (list_ascii_of_string "*/") with ["*"%char; "/"%char]. cbn [startswith].
  destruct (ascii_eqb "*" c) eqn:E1; cbn [andb].
  - destruct s as [|c2 s]; [cbn; discriminate|].
    destruct (ascii_eqb "/" c2) eqn:E2; cbn [andb].
    + intros [= <-]. apply ascii_eqb_eq in E1, E2. subst. auto.
    + destruct (find_block_end (c2 :: s)) as [k'|] eqn:E; [|discriminate].
      intros [= <-]. apply (IH _ eq_refl).
  - destruct (find_block_end s) as [k'|] eqn:E; [|discriminate].
    intros [= <-]. apply (IH _ eq_refl).
Qed.

(** Where a comment ends: on a slash, or before the end of a line. *)
Lemma comment_boundary s n :
  comments_token s = Some (Comment n) ->
  last (take n s) = Some "/"%char \/ ends_line (drop n s) = true.
Proof.
  unfold comments_token. destruct s as [|c s]; [discriminate|].
  destruct (is_quote c).
  { destruct (find_close c c s); discriminate. }
  destruct (ascii_eqb c "/"); [|discriminate].
  destruct s as [|c' s]; [discriminate|].
  destruct (ascii_eqb c' "*").
  - destruct (find_block_end s) as [k|] eqn:E; [|discriminate].
    intros [= <-]. left.
    pose proof (find_block_end_lookup _ _ E) as [_ H].
    pose proof (find_block_end_lt _ _ E) as Hlt.
    rewrite last_lookup. rewrite length_take.
    replace (Init.Nat.pred (_ `min` _)) with (S (S (S k))) by (cbn [length]; lia).
    rewrite lookup_take_lt by lia. exact H.
  - destruct (ascii_eqb c' "/"); [|discriminate].
    destruct (ends_line (drop (line_len s) s)) eqn:E; [|discriminate].
    intros [= <-]. right. exact E.
Qed.

Lemma ends_line_head q s : q <> LF -> ends_line s = true -> head s <> Some q.
Proof.
  intros Hq. destruct s as [|c s]; [discriminate|]. cbn.
  intros H [= ->]. apply ascii_eqb_eq in H. congruence.
Qed.

Lemma last_or_some p s c : last s = Some c -> last_or p s = c.
Proof. unfold last_or. now intros ->. Qed.

(** A search for a closing quote that fails on a text fails on the text
    without its comments. *)
Lemma find_close_strip q : q <> LF ->
  forall s p, find_close q p s = None -> find_close q p (strip_comments s) = None.
Proof.
  intros Hq s. remember (length s) as n eqn:Hn. revert s Hn.
  induction n as [n IH] using lt_wf_ind. intros s Hn p H.
  rewrite strip_comments_step.
  destruct (comments_token s) as [[k|k]|] eqn:E.
  - pose proof (comments_token_ge2 _ _ E) as Hk. cbn in Hk.
    rewrite <- (take_drop k s) in H. apply find_close_app_none in H as [H1 H2].
    apply find_close_app_none. split; [assumption|].
    apply (IH (length (drop k s))); [|reflexivity|assumption].
    subst n. rewrite length_drop. lia.
  - pose proof (comments_token_ge2 _ _ E) as Hk. cbn in Hk.
    rewrite <- (take_drop k s) in H. apply find_close_app_none in H as [H1 H2].
    apply (IH (length (drop k s))); [subst n; rewrite length_drop; lia|reflexivity|].
    apply find_close_prev with (a := last_or p (take k s)); [|assumption].
    destruct (comment_boundary _ _ E) as [Hl|He].
    + left. rewrite (last_or_some _ _ _ Hl). discriminate.
    + right. now apply ends_line_head.
  - destruct s as [|c s]; [reflexivity|].
    cbn [find_close] in *.
    destruct (ascii_eqb c q && negb (ascii_eqb p BSL)); [discriminate|].
    destruct (find_close q c s) eqn:E'; [discriminate|].
    rewrite (IH (length s)); [reflexivity|subst n; cbn; lia|reflexivity|assumption].
Qed.

(** A text without [*/] has none once its comments are stripped. *)
Lemma find_block_end_strip s :
  find_block_end s = None -> find_block_end (strip_comments s) = None.
Proof.
  remember (length s) as n eqn:Hn. revert s Hn.
  induction n as [n IH] using lt_wf_ind. intros s Hn H.
  rewrite strip_comments_step.
  destruct (comments_token s) as [[k|k]|] eqn:E.
  - pose proof (comments_token_ge2 _ _ E) as Hk. cbn in Hk.
    rewrite <- (take_drop k s) in H. apply find_block_end_app_none in H as (H1 & H2 & H3).
    apply find_block_end_app_none. split; [assumption|]. split.
    + apply (IH (length (drop k s))); [subst n; rewrite length_drop; lia|reflexivity|assumption].
    + intros [Hl Hh]. apply H3. split; [assumption|].
      destruct (decide (head (drop k s) = Some "/"%char)) as [|Hne]; [assumption|].
      rewrite (head_strip_comments _ Hne) in Hh. contradiction.
  - pose proof (comments_token_ge2 _ _ E) as Hk. cbn in Hk.
    rewrite <- (take_drop k s) in H. apply find_block_end_app_none in H as (H1 & H2 & H3).
    apply (IH (length (drop k s))); [subst n; rewrite length_drop; lia|reflexivity|assumption].
  - destruct s as [|c s]; [reflexivity|].
    change (c :: s) with ([c] ++ s) in H. apply find_block_end_app_none in H as (H1 & H2 & H3).
    change (c :: strip_comments s) with ([c] ++ strip_comments s).
    apply find_block_end_app_none. split; [assumption|]. split.
    + apply (IH (length s)); [subst n; cbn; lia|reflexivity|assumption].
    + intros [Hl Hh]. apply H3. split; [assumption|].
      destruct (decide (head s = Some "/"%char)) as [|Hne]; [assumption|].
      rewrite (head_strip_comments _ Hne) in Hh. contradiction.
Qed.

Lemma has_char_app c a b : has_char c (a ++ b) = has_char c a || has_char c b.
Proof. apply existsb_app. Qed.

Lemma has_char_drop c n s : has_char c s = false -> has_char c (drop n s) = false.
Proof.
  intros H. rewrite <- (take_drop n s), has_char_app in H.
  now apply orb_false_iff in H as [_ H].
Qed.

Lemma line_without_end s :
  ends_line (drop (line_len s) s) = false -> has_char CR s = true.
Proof.
  unfold has_char. induction s as [|c s IH]; [discriminate|].
  cbn [line_len]. destruct (line_char c) eqn:Hc.
  - cbn [drop]. intros H. cbn [existsb]. rewrite (IH H). apply orb_true_r.
  - cbn [drop ends_line]. intros H. unfold line_char in Hc.
    rewrite H, orb_false_r in Hc. apply negb_false_iff in Hc.
    cbn [existsb]. rewrite (ascii_eqb_sym CR c), Hc. reflexivity.
Qed.

Lemma is_quote_not_lf q : is_quote q = true -> q <> LF.
Proof. intros H. apply is_quote_cases in H as [-> | ->]; discriminate. Qed.

Lemma comments_token_literal_prefix s n x :
  comments_token s = Some (Literal n) -> comments_token (take n s ++ x) = Some (Literal n).
Proof.
  unfold comments_token. destruct s as [|c s]; [discriminate|].
  destruct (is_quote c) eqn:Hq.
  - destruct (find_close c c s) as [k|] eqn:E; [|discriminate].
    intros [= <-]. cbn [plus take app]. rewrite Hq.
    now rewrite (find_close_take _ _ _ _ x E).
  - destruct (ascii_eqb c "/"); [|discriminate].
    destruct s as [|c' s]; [discriminate|].
    destruct (ascii_eqb c' "*").
    + destruct (find_block_end s); discriminate.
    + destruct (ascii_eqb c' "/"); [|discriminate].
      destruct (ends_line _); discriminate.
Qed.

(** A literal is kept whatever follows it. *)
Lemma strip_comments_literal s n x :
  comments_token s = Some (Literal n) ->
  strip_comments (take n s ++ x) = take n s ++ strip_comments x.
Proof.
  intros E. pose proof (comments_token_ge2 _ _ E) as Hn. cbn in Hn.
  rewrite strip_comments_step at 1.
  rewrite (comments_token_literal_prefix _ _ x E).
  rewrite take_app_length', drop_app_length'; [reflexivity| |]; rewrite length_take; lia.
Qed.

Lemma strip_comments_plain c s :
  is_quote c = false -> c <> "/"%char ->
  strip_comments (c :: s) = c :: strip_comments s.
Proof.
  intros Hq Hc. rewrite strip_comments_step. unfold comments_token.
  apply ascii_eqb_neq in Hc. now rewrite Hq, Hc.
Qed.

(** A character at which nothing matches still matches nothing once the
    comments to its right are gone. *)
Lemma comments_token_none_strip c s :
  has_char CR s = false ->
  comments_token (c :: s) = None -> comments_token (c :: strip_comments s) = None.
Proof.
  intros Hcr. unfold comments_token.
  destruct (is_quote c) eqn:Hq.
  - destruct (find_close c c s) eqn:E; [discriminate|]. intros _.
    now rewrite (find_close_strip c (is_quote_not_lf _ Hq) _ _ E).
  - destruct (ascii_eqb c "/") eqn:Hc; [|reflexivity].
    destruct s as [|c' s]; [reflexivity|].
    destruct (ascii_eqb c' "*") eqn:Hstar.
    + apply ascii_eqb_eq in Hstar. subst c'.
      destruct (find_block_end s) eqn:E; [discriminate|]. intros _.
      rewrite strip_comments_plain by (reflexivity || discriminate).
      rewrite ascii_eqb_refl.
      now rewrite (find_block_end_strip _ E).
    + destruct (ascii_eqb c' "/") eqn:Hsl.
      * destruct (ends_line (drop (line_len s) s)) eqn:E; [discriminate|]. intros _.
        apply line_without_end in E. unfold has_char in *. cbn [existsb] in Hcr.
        apply orb_false_iff in Hcr as [_ Hcr]. congruence.
      * intros _.
        assert (Hh : head (strip_comments (c' :: s)) = Some c').
        { apply head_strip_comments. cbn. intros [= ->]. discriminate. }
        destruct (strip_comments (c' :: s)) as [|d t]; [discriminate|].
        cbn in Hh. injection Hh as ->. rewrite Hstar, Hsl. reflexivity.
Qed.

(** Stripping the comments of a text that holds no carriage return
    leaves nothing to strip. *)
Lemma strip_comments_twice s :
  has_char CR s = false -> strip_comments (strip_comments s) = strip_comments s.
Proof.
  remember (length s) as n eqn:Hn. revert s Hn.
  induction n as [n IH] using lt_wf_ind. intros s Hn Hcr.
  rewrite (strip_comments_step s).
  destruct (comments_token s) as [[k|k]|] eqn:E.
  - pose proof (comments_token_ge2 _ _ E) as Hk. cbn in Hk.
    rewrite (strip_comments_literal _ _ _ E). f_equal.
    apply (IH (length (drop k s))); [subst n; rewrite length_drop; lia|reflexivity|].
    now apply has_char_drop.
  - pose proof (comments_token_ge2 _ _ E) as Hk. cbn in Hk.
    apply (IH (length (drop k s))); [subst n; rewrite length_drop; lia|reflexivity|].
    now apply has_char_drop.
  - destruct s as [|c s]; [reflexivity|].
    assert (Hcr' : has_char CR s = false).
    { unfold has_char in *. cbn [existsb] in Hcr. now apply orb_false_iff in Hcr as [_ ?]. }
    rewrite strip_comments_step, (comments_token_none_strip _ _ Hcr' E). f_equal.
    apply (IH (length s)); [subst n; cbn; lia|reflexivity|assumption].
Qed.

Lemma universal_newlines_no_cr_le n s :
  length s <= n -> has_char CR (universal_newlines s) = false.
Proof.
  revert s. induction n as [|n IH]; intros s Hn.
  - destruct s; [reflexivity|cbn in Hn; lia].
  - destruct s as [|c s]; [reflexivity|]. cbn [length] in Hn.
    cbn [universal_newlines]. destruct (ascii_eqb c CR) eqn:Ec.
    + unfold has_char. cbn [existsb]. cbn [orb].
      destruct s as [|c' s]; [reflexivity|]. cbn [length] in Hn.
      destruct (ascii_eqb c' LF); apply IH; cbn [length]; lia.
    + unfold has_char. cbn [existsb]. rewrite ascii_eqb_sym, Ec. cbn [orb].
      apply IH. lia.
Qed.

(** Text read in text mode holds no carriage return. *)
Lemma universal_newlines_no_cr s : has_char CR (universal_newlines s) = false.
Proof. now apply (universal_newlines_no_cr_le (length s)). Qed.

(** C6: comment stripping is idempotent.  Stripping the comments of a
    text without carriage return twice gives what stripping them once
    gives; the text [parse] strips is read in text mode, which leaves no
    carriage return, so this holds of every script, whatever the file
    holds. *)
Theorem comment_stripping_idempotent :
  (forall full_text,
     has_char CR full_text = false ->
     strip_comments (strip_comments full_text) = strip_comments full_text)
  /\ (forall raw,
        strip_comments (strip_comments (universal_newlines raw))
        = strip_comments (universal_newlines raw)).
Proof.
  split.
  - apply strip_comments_twice.
  - intros raw. apply strip_comments_twice, universal_newlines_no_cr.
Qed.

(** C6 on a text with comments of both kinds and a quoted comment
    marker. *)
Lemma comment_stripping_idempotent_witness :
  has_char CR idempotence_example = false
  /\ strip_comments (strip_comments idempotence_example) = strip_comments idempotence_example.
Proof.
  split; [reflexivity|].
  apply (proj1 comment_stripping_idempotent idempotence_example). reflexivity.
Defined.

(** ** Quoted literals survive the stripping *)

Lemma unescaped_find_close q p s : unescaped q p s = false <-> find_close q p s = None.
Proof.
  revert p. induction s as [|c s IH]; intros p; cbn; [tauto|].
  destruct (ascii_eqb c q && negb (ascii_eqb p BSL)); cbn.
  - split; discriminate.
  - rewrite IH. destruct (find_close q c s); cbn; split; congruence.
Qed.

Lemma literal_body_find_close q body rest :
  literal_body q body = true ->
  find_close q q (body ++ q :: rest) = Some (length body).
Proof.
  unfold literal_body. intros H. apply andb_true_iff in H as [H1 H2].
  apply negb_true_iff in H1, H2. apply unescaped_find_close in H1.
  rewrite find_close_app, H1. cbn. rewrite ascii_eqb_refl, H2. cbn.
  f_equal. lia.
Qed.

Lemma comments_token_literal q body rest :
  is_quote q = true -> literal_body q body = true ->
  comments_token (q :: body ++ q :: rest) = Some (Literal (2 + length body)).
Proof.
  intros Hq Hb. unfold comments_token. rewrite Hq.
  now rewrite (literal_body_find_close _ _ rest Hb).
Qed.

Lemma strip_comments_quoted q body rest :
  is_quote q = true -> literal_body q body = true ->
  strip_comments (q :: body ++ q :: rest) = q :: body ++ q :: strip_comments rest.
Proof.
  intros Hq Hb. rewrite strip_comments_step, (comments_token_literal _ _ _ Hq Hb).
  cbn [plus take drop]. f_equal.
  replace (S (length body)) with (length (body ++ [q])) by (rewrite length_app; cbn; lia).
  rewrite (cons_middle q body rest), app_assoc.
  rewrite take_app_length, drop_app_length. cbn [app]. f_equal. now rewrite <- app_assoc.
Qed.

Lemma token_match_some s m :
  token_match s = Some m ->
  (comments_token s = Some (Literal (Re.span m)) /\ keep_literals m = take (Re.span m) s)
  \/ (comments_token s = Some (Comment (Re.span m)) /\ keep_literals m = []).
Proof.
  unfold token_match. destruct (comments_token s) as [[n|n]|]; intros [= <-]; auto.
Qed.

Lemma token_match_none s : token_match s = None -> comments_token s = None.
Proof.
  unfold token_match. now destruct (comments_token s) as [[n|n]|].
Qed.

(** What lies before a cursor has been dealt with for good. *)
Lemma cursor_strip_comments full_text p t :
  cursor full_text p t ->
  exists out, strip_comments full_text = out ++ strip_comments t.
Proof.
  induction 1 as [|p t m _ [out IH] Hm Hspan|p c t _ [out IH] Hm].
  - now exists [].
  - rewrite match_at_token in Hm. rewrite (strip_comments_step t) in IH.
    apply token_match_some in Hm as [[Hm Hk]|[Hm Hk]]; rewrite Hm in IH.
    + exists (out ++ take (Re.span m) t). now rewrite <- app_assoc.
    + now exists out.
  - rewrite match_at_token in Hm. apply token_match_none in Hm.
    rewrite (strip_comments_step (c :: t)), Hm in IH.
    exists (out ++ [c]). now rewrite <- app_assoc.
Qed.

(** C5: comment stripping keeps quoted literals.  Wherever the scan of a
    text comes upon a quote that opens a literal (a run up to the first
    quote of the same kind that no backslash precedes) the whole run, with
    any comment marker in it, stands unchanged in the stripped text, and
    the scan goes on behind it.  In particular the line
    [var s - x ::= T (Q// not a commentQ)], with [Q] the double quote, is
    left as it is. *)
Theorem quote_safety :
  (forall full_text p q body rest,
     cursor full_text p (q :: body ++ q :: rest) ->
     is_quote q = true ->
     literal_body q body = true ->
     exists out,
       strip_comments full_text = out ++ q :: body ++ q :: strip_comments rest)
  /\ strip_comments quoted_example = quoted_example.
Proof.
  split.
  - intros full_text p q body rest Hc Hq Hb.
    destruct (cursor_strip_comments _ _ _ Hc) as [out Hout].
    exists out. now rewrite Hout, strip_comments_quoted.
  - vm_compute. reflexivity.
Qed.

Ltac walk_cursor :=
  first [ apply cursor_start
        | eapply cursor_char; [walk_cursor | vm_compute; reflexivity] ].

(** C5 on the line of the claim: the scan reaches the opening quote, and
    the literal is kept. *)
Lemma quote_safety_witness :
  cursor quoted_example (Some "("%char) (DQ :: "// not a comment" ++ DQ :: ")")
  /\ is_quote DQ = true
  /\ literal_body DQ "// not a comment" = true
  /\ exists out, strip_comments quoted_example
                 = out ++ DQ :: "// not a comment" ++ DQ :: strip_comments ")".
Proof.
  assert (Hc : cursor quoted_example (Some "("%char) (DQ :: "// not a comment" ++ DQ :: ")")).
  { unfold quoted_example. cbn. walk_cursor. }
  split; [exact Hc|]. split; [reflexivity|]. split; [reflexivity|].
  apply (proj1 quote_safety quoted_example (Some "("%char) DQ "// not a comment" ")" Hc);
    reflexivity.
Defined.

(** ** Rendering and reading *)

Lemma convert_lines_render rule lines osts :
  for_each read_statement lines = Ok osts ->
  (let! converted := for_each (convert_line rule) lines in Ok (concat converted))
  = (let! converted := for_each (render_statement rule) (omap id osts) in Ok (concat converted)).
Proof.
  revert osts. induction lines as [|line lines IH]; intros osts.
  - intros [= <-]. reflexivity.
  - cbn [for_each]. unfold convert_line at 1.
    destruct (read_statement line) as [ost|e]; cbn [bind]; [|discriminate].
    destruct (for_each read_statement lines) as [osts'|e]; cbn [bind]; [|discriminate].
    intros [= <-]. specialize (IH _ eq_refl).
    destruct ost as [st|].
    + change (omap id (Some st :: osts')) with (st :: omap id osts').
      cbn [for_each]. destruct (render_statement rule st) as [t|e]; cbn [bind]; [|reflexivity].
      destruct (for_each (convert_line rule) lines) as [c|e];
        destruct (for_each (render_statement rule) (omap id osts')) as [c'|e'];
        cbn [bind] in *; try discriminate; try congruence.
      injection IH as IH. cbn [concat]. now rewrite IH.
    + change (omap id (None :: osts')) with (omap id osts').
      destruct (for_each (convert_line rule) lines) as [c|e];
        destruct (for_each (render_statement rule) (omap id osts')) as [c'|e'];
        cbn [bind] in *; try discriminate; try congruence.
      exact IH.
Qed.

(** What [convert.py] makes of a text is the rendering of the statements
    it reads from the text. *)
Lemma convert_text_render rule parsed sts :
  deserialize parsed = Ok sts -> convert_text rule parsed = render rule sts.
Proof.
  unfold deserialize, convert_text, render.
  destruct (for_each read_statement (readlines parsed)) as [osts|e] eqn:E; cbn [bind];
    [|discriminate].
  intros [= <-]. pose proof (convert_lines_render rule _ _ E) as H.
  destruct (for_each (convert_line rule) (readlines parsed)) as [c|e];
    destruct (for_each (render_statement rule) (omap id osts)) as [c'|e'];
    cbn [bind] in *; try discriminate; try congruence.
Qed.

(** ** The claims about single lines, targets and runs *)

(** C1: for a line whose argument list is the empty-parameter marker [()]
    the statement is said to have an empty [args].  It has not: for a
    call line and for a declaration line alike, [args] is a list that
    holds one empty argument, and so is what [parse_args] makes of the
    marker. *)
Theorem empty_parameter_marker :
  parse_args "()" = [[]]
  /\ parse_line "m -> go ()" = Ok (Some (Invoke "m" "go" [[]]))
  /\ parse_line "T - m ::= C ()" = Ok (Some (Construct "T" "m" "C" [[]])).
Proof. repeat split; vm_compute; reflexivity. Qed.

(** C2: the script of the two lines [T - m ::= C (1 2)] and [m -> go ()]
    is said to normalize to a [Construct] with the arguments [1] and [2]
    and an [Invoke] with no argument, and to render with the [cpp] rules
    as prologue, the two statements and epilogue.  The [Invoke] the script
    normalizes to has one empty argument instead, so the sequence is not
    the one claimed; the claimed sequence renders to the claimed text, and
    a run of [parse] with the target [cpp] writes that same text. *)
Theorem two_lines_end_to_end :
  normalize two_lines
  = Statements [Construct "T" "m" "C" ["1" : text; "2" : text]; Invoke "m" "go" [[]]]
  /\ normalize two_lines <> Statements claimed_statements
  /\ render cpp_rule claimed_statements = Ok claimed_rendering
  /\ files (snd (parse 4 ["parse.py" : text; "demo.gg" : text; "demo.txt" : text; "cpp" : text]
                   demo_world)) !! ("demo.txt" : text)
     = Some claimed_rendering.
Proof.
  split; [vm_compute; reflexivity|]. split; [vm_compute; discriminate|].
  split; vm_compute; reflexivity.
Qed.

(** C3: a line that lacks a delimiter is said to be reported with its
    position in the original text.  In [seven_lines] the seventh line is
    [x ::= y], which lacks the separator between type and name; the
    report is line 2, where a block comment holds the same text.  A
    malformed line that carried a comment is not found in the original
    text at all, and the search for it raises [ValueError]. *)
Theorem line_number_of_repeated_line :
  split [LF] seven_lines !! 6 = Some ("x ::= y" : text)
  /\ parse_line "x ::= y" = Raise IndexError
  /\ normalize seven_lines = SyntaxError 2
  /\ stdout (snd (parse 3 ["parse.py" : text; "seven.gg" : text; "seven.txt" : text] seven_world))
     = ["SyntaxError at line 2" : text]
  /\ normalize "x ::= y // c" = Uncaught ValueError.
Proof. repeat split; vm_compute; reflexivity. Qed.

(** C7: asked for a language the rule table does not hold, [convert] (and
    [parse], when given a fourth argument other than [txt]) ends with
    [sys.exit(-1)] after printing its message, and leaves every file as
    it was: nothing is opened or written before the test. *)
Theorem unsupported_target (registry : gmap text rule_set) argc argv w language :
  registry !! language = None ->
  (argc <> 1 -> argc <> 2 -> index argv 1 = Ok language ->
   convert_with registry argc argv w
   = (Exit (-1), print "Can't convert in that language" w))
  /\ (argc = 4 -> index argv 3 = Ok language -> language <> ("txt" : text) ->
      parse_with registry argc argv w
      = (Exit (-1), print ("Can't convert in " ++ language ++ " language") w))
  /\ (forall msg, files (print msg w) = files w).
Proof.
  intros Hnone. split; [|split].
  - intros H1 H2 Hl. unfold convert_with.
    apply Nat.eqb_neq in H1, H2. now rewrite H1, H2, Hl, Hnone.
  - intros -> Hl Htxt. unfold parse_with. cbn [Nat.eqb]. rewrite Hl, Hnone.
    unfold text_eqb. rewrite (bool_decide_eq_false_2 (is_Some None)) by (intros [? ?]; discriminate).
    now rewrite bool_decide_eq_false_2 by assumption.
  - reflexivity.
Qed.

(** C7 for the language [nolang] and the built-in rule table. *)
Lemma unsupported_target_witness :
  rules !! ("nolang" : text) = None
  /\ convert 3 ["convert.py" : text; "nolang" : text; "demo.gg" : text] demo_world
     = (Exit (-1), print "Can't convert in that language" demo_world).
Proof.
  split; [reflexivity|].
  apply (proj1 (unsupported_target rules 3
                  ["convert.py" : text; "nolang" : text; "demo.gg" : text]
                  demo_world "nolang" eq_refl)).
  - discriminate.
  - discriminate.
  - reflexivity.
Defined.

(** ** The arguments of a statement *)

Lemma rmatch_str2_any fl a b p s g :
  Re.rmatch fl (Re.Str [a; b]) (Re.MState p s g)
  = match s with
    | c1 :: c2 :: s' => if ascii_eqb a c1 && ascii_eqb b c2
                        then [Re.MState (Some c2) s' g] else []
    | _ => []
    end.
Proof.
  cbn [Re.Str Re.rmatch Re.m_rest Re.m_prev Re.m_groups Re.in_class].
  destruct s as [|c1 s]; [reflexivity|].
  destruct (ascii_eqb a c1); cbn [flat_map andb]; [|now destruct s].
  destruct s as [|c2 s]; [reflexivity|].
  cbn [Re.m_rest Re.m_prev Re.m_groups app].
  destruct (ascii_eqb b c2); reflexivity.
Qed.

Lemma match_at_args prev x :
  Re.match_at __args_pattern prev x
  = match prev, x with
    | None, c1 :: c2 :: r =>
        if ascii_eqb "(" c1 && ascii_eqb ")" c2 && ends_text r
        then Some {| Re.span := 2; Re.groups := [] |} else None
    | _, _ => None
    end.
Proof.
  unfold Re.match_at.
  change (Re.rmatch (Re.p_flags __args_pattern) (Re.p_regex __args_pattern) ?st)
    with (flat_map (fun st' => flat_map (Re.rmatch (Re.p_flags __args_pattern) Re.Eol)
                                 (Re.rmatch (Re.p_flags __args_pattern) (Re.Str "()") st'))
            (Re.rmatch (Re.p_flags __args_pattern) Re.Bol st)).
  cbn [Re.rmatch Re.at_bol Re.m_prev].
  destruct prev as [p|].
  - reflexivity.
  - change (Re.at_bol _ _) with true. cbn iota. cbn [flat_map]. rewrite app_nil_r.
    change (list_ascii_of_string "()") with ["("%char; ")"%char].
    rewrite rmatch_str2_any.
    destruct x as [|c1 [|c2 r]]; try reflexivity.
    destruct (ascii_eqb "(" c1 && ascii_eqb ")" c2); [|reflexivity].
    cbn [flat_map andb]. rewrite app_nil_r.
    unfold Re.at_eol, ends_text. cbn [Re.m_rest].
    destruct r as [|c3 r].
    + cbn [length]. reflexivity.
    + change (Re.MULTILINE (Re.p_flags __args_pattern)) with false. cbn [orb].
      destruct (ascii_eqb c3 LF && bool_decide (r = [])); [|reflexivity].
      cbn [Re.m_rest Re.m_groups length]. do 2 f_equal. lia.
Qed.

Lemma sub_args_later k p s :
  Re.sub_scan __args_pattern args_repl k (Some p) s = drop k s.
Proof.
  revert k p. induction s as [|c s IH]; intros k p.
  - destruct k; reflexivity.
  - destruct k as [|k]; cbn [Re.sub_scan drop].
    + rewrite match_at_args. now rewrite IH.
    + apply IH.
Qed.


Lemma split_go_nonempty sep skip cur s : split_go sep skip cur s <> [].
Proof.
  revert skip cur. induction s as [|c s IH]; intros skip cur; cbn; [discriminate|].
  destruct skip; [|apply IH]. destruct (startswith sep (c :: s)); [discriminate|apply IH].
Qed.

Lemma join_cons sep a l : l <> [] -> join sep (a :: l) = a ++ sep ++ join sep l.
Proof. destruct l; [congruence|reflexivity]. Qed.














(** ** The intermediate text read back *)

Lemma whitespace_free_app a b :
  whitespace_free (a ++ b) = whitespace_free a && whitespace_free b.
Proof. apply forallb_app. Qed.

Lemma split_ws_go_word w cur rest :
  whitespace_free w = true ->
  split_ws_go cur (w ++ rest) = split_ws_go (rev w ++ cur) rest.
Proof.
  revert cur. induction w as [|c w IH]; intros cur H; [reflexivity|].
  cbn in H. apply andb_true_iff in H as [Hc Hw]. apply negb_true_iff in Hc.
  cbn [app split_ws_go]. rewrite Hc, (IH _ Hw). cbn [rev]. now rewrite <- app_assoc.
Qed.

Lemma split_ws_go_space cur rest :
  split_ws_go cur (SP :: rest) = emit cur ++ split_ws_go [] rest.
Proof. reflexivity. Qed.

Lemma emit_rev w : nonempty w = true -> emit (rev w) = [w].
Proof.
  intros H. destruct (rev w) as [|c r] eqn:E.
  - apply (f_equal (@rev ascii)) in E. rewrite rev_involutive in E. now subst.
  - cbn [emit]. rewrite <- E, rev_involutive. reflexivity.
Qed.

(** A field and the space after it come off as one word. *)
Lemma split_ws_go_field w rest :
  field_ok w = true ->
  split_ws_go [] (w ++ SP :: rest) = w :: split_ws_go [] rest.
Proof.
  unfold field_ok. intros H. apply andb_true_iff in H as [Hn Hw].
  rewrite (split_ws_go_word _ _ _ Hw), app_nil_r, split_ws_go_space, emit_rev by assumption.
  reflexivity.
Qed.

Lemma split_ws_go_lf cur x : split_ws_go cur (x ++ [LF]) = split_ws_go cur x.
Proof.
  revert cur. induction x as [|c x IH]; intros cur.
  - cbn. now rewrite app_nil_r.
  - cbn [app split_ws_go]. now rewrite !IH.
Qed.

Lemma split_ws_whole x :
  nonempty x = true -> whitespace_free x = true -> split_ws_go [] x = [x].
Proof.
  intros Hn Hw. rewrite <- (app_nil_r x) at 1.
  rewrite (split_ws_go_word _ _ _ Hw), app_nil_r. cbn [split_ws_go]. now apply emit_rev.
Qed.

Lemma spacing_app b x y :
  spacing b (x ++ y) = match spacing b x with Some b' => spacing b' y | None => None end.
Proof.
  revert b. induction x as [|c x IH]; intros b; [reflexivity|].
  cbn [app spacing]. destruct (isspace c); [|apply IH].
  destruct (ascii_eqb c SP && negb b); [apply IH|reflexivity].
Qed.

Lemma isspace_SP c : ascii_eqb c SP = true -> isspace c = true.
Proof. intros H. apply ascii_eqb_eq in H. now subst. Qed.

(** Text whose whitespace is single spaces between words is what
    [split_ws] and a [join] with a space give back. *)
Lemma join_split_ws_go x cur :
  spacing (negb (nonempty cur)) x = Some false ->
  join " " (split_ws_go cur x) = rev cur ++ x.
Proof.
  revert cur. induction x as [|c x IH]; intros cur H.
  - cbn in H. destruct cur as [|d cur]; [discriminate|]. cbn. now rewrite app_nil_r.
  - cbn [spacing split_ws_go] in *. destruct (isspace c) eqn:Ec.
    + destruct (ascii_eqb c SP && negb (negb (nonempty cur))) eqn:E; [|discriminate].
      apply andb_true_iff in E as [E1 E2]. apply ascii_eqb_eq in E1. subst c.
      rewrite negb_involutive in E2.
      destruct cur as [|d cur]; [discriminate|]. cbn [emit app].
      specialize (IH [] H). cbn [rev app] in IH.
      assert (Hne : split_ws_go [] x <> []).
      { intros E. rewrite E in IH. cbn in IH. subst x. discriminate. }
      rewrite join_cons by assumption. rewrite IH. reflexivity.
    + rewrite (IH (c :: cur)) by exact H. cbn [rev]. now rewrite <- app_assoc.
Qed.

Lemma join_split_ws x :
  spacing true x = Some false -> join " " (split_ws x) = x.
Proof. intros H. unfold split_ws. now rewrite join_split_ws_go. Qed.

Lemma spacing_no_lf b x b' : spacing b x = Some b' -> has_char LF x = false.
Proof.
  revert b. induction x as [|c x IH]; intros b; [reflexivity|].
  cbn [spacing]. unfold has_char in *. cbn [existsb].
  destruct (isspace c) eqn:Ec.
  - destruct (ascii_eqb c SP && negb b) eqn:E; [|discriminate].
    apply andb_true_iff in E as [E _]. apply ascii_eqb_eq in E. subst c.
    intros H. now rewrite (IH _ H).
  - intros H. rewrite (IH _ H), orb_false_r.
    destruct (ascii_eqb LF c) eqn:E; [|reflexivity].
    apply ascii_eqb_eq in E. subst c. discriminate.
Qed.

Lemma spacing_whitespace_free b x b' :
  spacing b x = Some b' -> has_char SP x = false -> whitespace_free x = true.
Proof.
  revert b. induction x as [|c x IH]; intros b; [reflexivity|].
  cbn [spacing]. unfold has_char, whitespace_free in *. cbn [existsb forallb].
  intros H Hsp. apply orb_false_iff in Hsp as [Hc Hsp].
  destruct (isspace c) eqn:Ec.
  - destruct (ascii_eqb c SP && negb b) eqn:E; [|discriminate].
    apply andb_true_iff in E as [E _]. rewrite ascii_eqb_sym in E. congruence.
  - cbn [negb andb]. now apply (IH false).
Qed.

Lemma readlines_go_line cur x rest :
  has_char LF x = false ->
  readlines_go cur (x ++ LF :: rest) = (rev cur ++ x ++ [LF]) :: readlines_go [] rest.
Proof.
  revert cur. induction x as [|c x IH]; intros cur H.
  - reflexivity.
  - unfold has_char in H. cbn [existsb] in H. apply orb_false_iff in H as [Hc Hx].
    cbn [app readlines_go]. rewrite ascii_eqb_sym, Hc, (IH _ Hx). cbn [rev].
    now rewrite <- app_assoc.
Qed.

Ltac each_char c := destruct c as [[] [] [] [] [] [] [] []].

Lemma repr_char_spacing q c b :
  is_quote q = true ->
  spacing b (repr_char q c)
  = if ascii_eqb c SP then (if b then None else Some true) else Some false.
Proof.
  intros Hq. apply is_quote_cases in Hq as [-> | ->]; each_char c; destruct b; reflexivity.
Qed.

Lemma repr_char_space q c :
  is_quote q = true -> has_char SP (repr_char q c) = ascii_eqb SP c.
Proof.
  intros Hq. apply is_quote_cases in Hq as [-> | ->]; each_char c; reflexivity.
Qed.

(** [eval] reads a character back from what [repr] writes for it. *)
Lemma eval_repr_char q c acc items rest :
  is_quote q = true ->
  eval_go (EvStr q acc) items (repr_char q c ++ rest)
  = eval_go (EvStr q (c :: acc)) items rest.
Proof.
  intros Hq. apply is_quote_cases in Hq as [-> | ->]; each_char c; reflexivity.
Qed.

Lemma repr_quote_is_quote a : is_quote (repr_quote a) = true.
Proof. unfold repr_quote. destruct (has_char SQ a && negb (has_char DQ a)); reflexivity. Qed.

Lemma eval_repr_chars q a acc items rest :
  is_quote q = true ->
  eval_go (EvStr q acc) items (flat_map (repr_char q) a ++ rest)
  = eval_go (EvStr q (rev a ++ acc)) items rest.
Proof.
  intros Hq. revert acc. induction a as [|c a IH]; intros acc; [reflexivity|].
  cbn [flat_map rev]. rewrite <- !app_assoc, (eval_repr_char _ _ _ _ _ Hq), IH.
  reflexivity.
Qed.

Lemma eval_close q acc items rest :
  eval_go (EvStr q acc) items (q :: rest) = eval_go EvAfter (rev acc :: items) rest.
Proof. cbn [eval_go]. now rewrite ascii_eqb_refl. Qed.

Lemma eval_open q items rest :
  is_quote q = true ->
  eval_go EvItem items (q :: rest) = eval_go (EvStr q []) items rest.
Proof. intros Hq. apply is_quote_cases in Hq as [-> | ->]; reflexivity. Qed.

Lemma eval_repr_str a items rest :
  eval_go EvItem items (repr_str a ++ rest) = eval_go EvAfter (a :: items) rest.
Proof.
  unfold repr_str. pose proof (repr_quote_is_quote a) as Hq.
  cbn [app]. rewrite (eval_open _ _ _ Hq), <- app_assoc, (eval_repr_chars _ _ _ _ _ Hq).
  cbn [app]. rewrite eval_close, app_nil_r, rev_involutive. reflexivity.
Qed.

Lemma eval_repr_items args items :
  eval_go EvItem items (join ", " (map repr_str args) ++ "]") = Ok (rev items ++ args).
Proof.
  revert items. induction args as [|a args IH]; intros items.
  - cbn. now rewrite app_nil_r.
  - cbn [map]. destruct args as [|b args].
    + cbn [map join]. rewrite eval_repr_str. reflexivity.
    + rewrite join_cons by discriminate. rewrite <- !app_assoc, eval_repr_str.
      change (list_ascii_of_string ", ") with [","%char; SP]. cbn [app].
      change (eval_go EvAfter (a :: items) (","%char :: SP :: ?r))
        with (eval_go EvItem (a :: items) r).
      change (repr_str b :: map repr_str args) with (map repr_str (b :: args)).
      rewrite IH. cbn [rev]. now rewrite <- app_assoc.
Qed.

(** [eval] gives back the list whose [repr] it is given. *)
Lemma eval_repr_list args : eval_list (repr_list args) = Ok args.
Proof.
  unfold eval_list, repr_list.
  change (list_ascii_of_string "[") with ["["%char]. cbn [app].
  change (eval_go EvStart [] ("["%char :: ?r)) with (eval_go EvItem [] r).
  apply eval_repr_items.
Qed.

Lemma spacing_repr_chars q a b :
  is_quote q = true ->
  spacing b (flat_map (repr_char q) a)
  = if no_double_space b a then Some (space_state b a) else None.
Proof.
  intros Hq. revert b. induction a as [|c a IH]; intros b; [reflexivity|].
  cbn [flat_map no_double_space space_state].
  rewrite spacing_app, (repr_char_spacing _ _ _ Hq).
  destruct (ascii_eqb c SP).
  - destruct b; [reflexivity|]. cbn [negb andb]. apply IH.
  - apply IH.
Qed.

Lemma spacing_quote q b rest :
  is_quote q = true -> spacing b (q :: rest) = spacing false rest.
Proof. intros Hq. apply is_quote_cases in Hq as [-> | ->]; reflexivity. Qed.

Lemma spacing_repr_str a b :
  no_double_space false a = true -> spacing b (repr_str a) = Some false.
Proof.
  intros H. unfold repr_str. pose proof (repr_quote_is_quote a) as Hq.
  rewrite (spacing_quote _ _ _ Hq), spacing_app, (spacing_repr_chars _ _ _ Hq), H.
  now rewrite (spacing_quote _ _ _ Hq).
Qed.

Lemma spacing_separator r : spacing false (", " ++ r) = spacing true r.
Proof. reflexivity. Qed.

Lemma spacing_repr_items args b :
  forallb (no_double_space false) args = true ->
  spacing b (join ", " (map repr_str args)) = Some (match args with [] => b | _ => false end).
Proof.
  revert b. induction args as [|a args IH]; intros b H; [reflexivity|].
  cbn [forallb] in H. apply andb_true_iff in H as [Ha Hargs].
  cbn [map]. destruct args as [|a' args].
  - cbn [map join]. now apply spacing_repr_str.
  - rewrite join_cons by discriminate.
    rewrite spacing_app, (spacing_repr_str _ _ Ha), spacing_separator.
    change (repr_str a' :: map repr_str args) with (map repr_str (a' :: args)).
    now rewrite (IH true Hargs).
Qed.

Lemma spacing_repr_list args :
  forallb (no_double_space false) args = true ->
  spacing true (repr_list args) = Some false.
Proof.
  intros H. unfold repr_list.
  change (list_ascii_of_string "[") with ["["%char]. cbn [app].
  change (spacing true ("["%char :: ?r)) with (spacing false r).
  rewrite spacing_app, (spacing_repr_items _ _ H). now destruct args.
Qed.

Lemma has_char_repr_chars q a :
  is_quote q = true -> has_char SP (flat_map (repr_char q) a) = has_char SP a.
Proof.
  intros Hq. induction a as [|c a IH]; [reflexivity|].
  cbn [flat_map]. rewrite has_char_app, (repr_char_space _ _ Hq), IH. reflexivity.
Qed.

Lemma has_char_repr_str a : has_char SP (repr_str a) = has_char SP a.
Proof.
  unfold repr_str. pose proof (repr_quote_is_quote a) as Hq.
  change (?q :: ?x ++ [?q]) with ([q] ++ x ++ [q]).
  rewrite !has_char_app, (has_char_repr_chars _ _ Hq).
  apply is_quote_cases in Hq as [-> | ->]; cbn; now rewrite orb_false_r.
Qed.

Lemma no_double_space_without b a : has_char SP a = false -> no_double_space b a = true.
Proof.
  revert b. induction a as [|c a IH]; intros b H; [reflexivity|].
  unfold has_char in H. cbn [existsb] in H. apply orb_false_iff in H as [Hc Ha].
  cbn [no_double_space]. rewrite ascii_eqb_sym, Hc. now apply IH.
Qed.

Lemma field_ok_parts f : field_ok f = true -> nonempty f = true /\ whitespace_free f = true.
Proof. unfold field_ok. intros H. now apply andb_true_iff in H. Qed.

Lemma whitespace_free_no_lf f : whitespace_free f = true -> has_char LF f = false.
Proof.
  unfold whitespace_free, has_char. induction f as [|c f IH]; [reflexivity|].
  cbn [forallb existsb]. intros H. apply andb_true_iff in H as [Hc Hf].
  rewrite (IH Hf), orb_false_r.
  destruct (ascii_eqb LF c) eqn:E; [|reflexivity].
  apply ascii_eqb_eq in E. subst c. discriminate.
Qed.

Lemma read_construct var_type var_name class_name args :
  round_trips (Construct var_type var_name class_name args) = true ->
  read_statement (serialize (Construct var_type var_name class_name args))
  = Ok (Some (Construct var_type var_name class_name args)).
Proof.
  cbn [round_trips]. intros H.
  apply andb_true_iff in H as [H Hargs]. apply andb_true_iff in H as [H Hc].
  apply andb_true_iff in H as [Ht Hn].
  assert (Hsplit : split_ws (serialize (Construct var_type var_name class_name args))
                   = ("var" : text) :: var_type :: var_name :: class_name
                     :: split_ws (repr_list args)).
  { unfold split_ws. cbn [serialize].
    change (list_ascii_of_string "var ") with (("var" : text) ++ SP :: []).
    change (list_ascii_of_string " ") with [SP].
    rewrite <- !app_assoc. cbn [app].
    rewrite (split_ws_go_field "var") by reflexivity.
    rewrite (split_ws_go_field _ _ Ht), (split_ws_go_field _ _ Hn), (split_ws_go_field _ _ Hc).
    now rewrite split_ws_go_lf. }
  unfold read_statement. rewrite !Hsplit. cbn [index lookup list_lookup bind drop].
  change (text_eqb "var" "var") with true. cbn iota. rewrite drop_0.
  rewrite (join_split_ws _ (spacing_repr_list _ Hargs)), eval_repr_list. reflexivity.
Qed.

Lemma invoke_args_plain args :
  match args with
  | [] => true
  | [a] => negb (has_char SP a)
  | _ :: _ :: _ => false
  end = true ->
  whitespace_free (repr_list args) = true.
Proof.
  intros H. destruct args as [|a [|b args]]; [reflexivity| |discriminate].
  apply negb_true_iff in H.
  apply (spacing_whitespace_free true _ false).
  - apply spacing_repr_list. cbn. now rewrite no_double_space_without.
  - unfold repr_list. cbn [map join].
    change (list_ascii_of_string "[") with ["["%char].
    change (list_ascii_of_string "]") with ["]"%char].
    rewrite !has_char_app, has_char_repr_str, H. reflexivity.
Qed.

Lemma read_invoke receiver method_name args :
  round_trips (Invoke receiver method_name args) = true ->
  read_statement (serialize (Invoke receiver method_name args))
  = Ok (Some (Invoke receiver method_name args)).
Proof.
  cbn [round_trips]. intros H.
  apply andb_true_iff in H as [H Hargs]. apply andb_true_iff in H as [Hr Hm].
  apply invoke_args_plain in Hargs.
  assert (Hsplit : split_ws (serialize (Invoke receiver method_name args))
                   = [("method" : text); receiver; method_name; repr_list args]).
  { unfold split_ws. cbn [serialize].
    change (list_ascii_of_string "method ") with (("method" : text) ++ SP :: []).
    change (list_ascii_of_string " ") with [SP].
    rewrite <- !app_assoc. cbn [app].
    rewrite (split_ws_go_field "method") by reflexivity.
    rewrite (split_ws_go_field _ _ Hr), (split_ws_go_field _ _ Hm).
    now rewrite split_ws_go_lf, split_ws_whole. }
  unfold read_statement. rewrite !Hsplit. cbn [index lookup list_lookup bind].
  change (text_eqb "method" "var") with false.
  change (text_eqb "method" "method") with true. cbn iota.
  rewrite eval_repr_list. reflexivity.
Qed.

Lemma read_serialize st :
  round_trips st = true -> read_statement (serialize st) = Ok (Some st).
Proof. destruct st; [apply read_construct | apply read_invoke]. Qed.

(** A serialized statement is one line. *)
Lemma serialize_line st :
  round_trips st = true ->
  exists x, serialize st = x ++ [LF] /\ has_char LF x = false.
Proof.
  destruct st as [var_type var_name class_name args | receiver method_name args];
    cbn [round_trips serialize]; intros H.
  - apply andb_true_iff in H as [H Hargs]. apply andb_true_iff in H as [H Hc].
    apply andb_true_iff in H as [Ht Hn].
    apply field_ok_parts in Ht as [_ Ht], Hn as [_ Hn], Hc as [_ Hc].
    exists ("var " ++ var_type ++ " " ++ var_name ++ " " ++ class_name ++ " " ++ repr_list args).
    split; [now rewrite <- !app_assoc|].
    rewrite !has_char_app, (whitespace_free_no_lf _ Ht), (whitespace_free_no_lf _ Hn),
      (whitespace_free_no_lf _ Hc), (spacing_no_lf _ _ _ (spacing_repr_list _ Hargs)).
    reflexivity.
  - apply andb_true_iff in H as [H Hargs]. apply andb_true_iff in H as [Hr Hm].
    apply field_ok_parts in Hr as [_ Hr], Hm as [_ Hm].
    apply invoke_args_plain in Hargs.
    exists ("method " ++ receiver ++ " " ++ method_name ++ " " ++ repr_list args).
    split; [now rewrite <- !app_assoc|].
    rewrite !has_char_app, (whitespace_free_no_lf _ Hr), (whitespace_free_no_lf _ Hm),
      (whitespace_free_no_lf _ Hargs).
    reflexivity.
Qed.

Lemma readlines_serialize sts :
  forallb round_trips sts = true ->
  readlines (concat (map serialize sts)) = map serialize sts.
Proof.
  unfold readlines. induction sts as [|st sts IH]; intros H; [reflexivity|].
  cbn [forallb] in H. apply andb_true_iff in H as [Hst Hsts].
  destruct (serialize_line _ Hst) as (x & Hx & Hlf).
  cbn [map concat]. rewrite Hx, <- app_assoc. cbn [app].
  rewrite (readlines_go_line _ _ _ Hlf), (IH Hsts). reflexivity.
Qed.

Lemma for_each_read_serialize sts :
  forallb round_trips sts = true ->
  for_each read_statement (map serialize sts) = Ok (map Some sts).
Proof.
  induction sts as [|st sts IH]; intros H; [reflexivity|].
  cbn [forallb] in H. apply andb_true_iff in H as [Hst Hsts].
  cbn [map for_each]. rewrite (read_serialize _ Hst), (IH Hsts). reflexivity.
Qed.

Lemma omap_id_some {A} (l : list A) : omap id (map Some l) = l.
Proof. induction l as [|a l IH]; [reflexivity|]. cbn. now rewrite IH. Qed.

(** C4, as amended: reading the serialization of a statement sequence
    back gives the sequence, provided that every name field is non-empty
    and free of whitespace, that no argument of a [Construct] holds two
    spaces in a row, and that every [Invoke] has no argument or one
    argument without a space. *)
Theorem serialization_round_trip sts :
  forallb round_trips sts = true ->
  deserialize (concat (map serialize sts)) = Ok sts.
Proof.
  intros H. unfold deserialize.
  rewrite (readlines_serialize _ H), (for_each_read_serialize _ H). cbn [bind].
  now rewrite omap_id_some.
Qed.

(** The amended C4 on a sequence with quotes, a backslash and a tab in its
    arguments. *)
Lemma serialization_round_trip_witness :
  forallb round_trips round_trip_example = true
  /\ deserialize (concat (map serialize round_trip_example)) = Ok round_trip_example.
Proof.
  split; [reflexivity|].
  apply (serialization_round_trip round_trip_example). reflexivity.
Defined.

(** C4 as stated fails: an [Invoke] with an empty receiver (the line
    [ -> go] yields one) is written as a line of three words, and reading
    the fourth raises [IndexError]. *)
Lemma round_trip_fails :
  ~ (forall sts, deserialize (concat (map serialize sts)) = Ok sts).
Proof.
  intros H. specialize (H [Invoke [] "go" []]). vm_compute in H. discriminate H.
Qed.

(** ** The lines of a script *)

Lemma startswith_app p s : startswith p (p ++ s) = true.
Proof. induction p as [|c p IH]; [reflexivity|]. cbn. now rewrite ascii_eqb_refl, IH. Qed.

Lemma startswith_nil_r p : p <> [] -> startswith p [] = false.
Proof. now destruct p. Qed.

Lemma split_go_skip sep cur pre rest :
  split_go sep (length pre) cur (pre ++ rest) = split_go sep 0 cur rest.
Proof.
  induction pre as [|c pre IH]; [|exact IH].
  cbn. destruct rest; reflexivity.
Qed.

(** At an occurrence of the separator a piece ends. *)
Lemma split_go_at sep cur rest :
  sep <> [] -> split_go sep 0 cur (sep ++ rest) = rev cur :: split_go sep 0 [] rest.
Proof.
  intros Hsep. destruct sep as [|c sep]; [congruence|].
  change ((c :: sep) ++ rest) with (c :: (sep ++ rest)).
  cbn [split_go]. change (c :: sep ++ rest) with ((c :: sep) ++ rest).
  rewrite startswith_app.
  replace (length (c :: sep) - 1) with (length sep) by (cbn [length]; lia).
  now rewrite split_go_skip.
Qed.

(** A text without the separator is one piece. *)
Lemma split_go_none sep cur s :
  contains sep s = false -> split_go sep 0 cur s = [rev cur ++ s].
Proof.
  revert cur. induction s as [|c s IH]; intros cur H.
  - cbn. now rewrite app_nil_r.
  - cbn [contains] in H. apply orb_false_iff in H as [H1 H2].
    cbn [split_go]. rewrite H1, (IH _ H2). cbn [rev]. now rewrite <- app_assoc.
Qed.

(** A text with the separator is two pieces at least. *)
Lemma split_go_some sep cur s :
  sep <> [] -> contains sep s = true -> 2 <= length (split_go sep 0 cur s).
Proof.
  intros Hsep. revert cur. induction s as [|c s IH]; intros cur H.
  - cbn in H. rewrite startswith_nil_r in H by assumption. discriminate.
  - cbn [contains] in H. cbn [split_go].
    destruct (startswith sep (c :: s)).
    + cbn [length]. pose proof (split_go_nonempty sep (length sep - 1) [] s) as Hne.
      destruct (split_go sep (length sep - 1) [] s); [congruence|cbn; lia].
    + now apply IH.
Qed.

Lemma index_split_0 sep s : exists a, index (split sep s) 0 = Ok a.
Proof.
  unfold split, index. pose proof (split_go_nonempty sep 0 [] s) as H.
  destruct (split_go sep 0 [] s) as [|a l]; [congruence|]. now exists a.
Qed.

Lemma index_split_1 sep s :
  sep <> [] ->
  if contains sep s then exists b, index (split sep s) 1 = Ok b
  else index (split sep s) 1 = Raise IndexError.
Proof.
  intros Hsep. unfold split, index. destruct (contains sep s) eqn:E.
  - pose proof (split_go_some sep [] s Hsep E) as H.
    destruct (split_go sep 0 [] s) as [|a [|b l]]; cbn in H; try lia. now exists b.
  - now rewrite (split_go_none _ _ _ E).
Qed.

(** What [parse_line] returns tells which markers the line holds. *)
Lemma parse_line_cases line :
  match parse_line line with
  | Ok (Some (Construct _ _ _ _)) =>
      contains " ::= " line = true /\ contains " - " line = true
  | Ok (Some (Invoke _ _ _)) =>
      contains " ::= " line = false /\ contains " -> " line = true
  | Ok None =>
      contains " ::= " line = false /\ contains " -> " line = false
  | Raise e =>
      e = IndexError /\ contains " ::= " line = true /\ contains " - " line = false
  end.
Proof.
  unfold parse_line. destruct (contains " ::= " line) eqn:Ed.
  - destruct (index_split_0 " - " line) as [var_type ->]. cbn [bind].
    pose proof (index_split_1 " - " line) as H1.
    destruct (contains " - " line).
    + destruct H1 as [after ->]; [discriminate|]. cbn [bind].
      destruct (index_split_0 " ::= " after) as [var_name ->]. cbn [bind].
      pose proof (index_split_1 " ::= " line) as H2. rewrite Ed in H2.
      destruct H2 as [after' ->]; [discriminate|]. cbn [bind].
      destruct (index_split_0 " (" after') as [class_name ->]. cbn [bind]. auto.
    + rewrite H1 by discriminate. cbn [bind]. auto.
  - destruct (contains " -> " line) eqn:Ec; [|auto].
    destruct (index_split_0 " -> " line) as [var_name ->]. cbn [bind].
    pose proof (index_split_1 " -> " line) as H1. rewrite Ec in H1.
    destruct H1 as [after ->]; [discriminate|]. cbn [bind].
    destruct (index_split_0 " (" after) as [method_name ->]. cbn [bind]. auto.
Qed.

(** X1: which lines [parse_line] takes for what.  A line is a declaration
    exactly when it holds [ ::= ] and [ - ], a call exactly when it holds
    [ -> ] and no [ ::= ], passed over exactly when it holds neither
    [ ::= ] nor [ -> ]; it raises exactly when it holds [ ::= ] without
    [ - ], and [IndexError] is all it raises. *)
Theorem parse_line_classes line :
  ((exists var_type var_name class_name args,
      parse_line line = Ok (Some (Construct var_type var_name class_name args)))
   <-> contains " ::= " line = true /\ contains " - " line = true)
  /\ ((exists var_name method_name args,
         parse_line line = Ok (Some (Invoke var_name method_name args)))
      <-> contains " ::= " line = false /\ contains " -> " line = true)
  /\ (parse_line line = Ok None
      <-> contains " ::= " line = false /\ contains " -> " line = false)
  /\ (parse_line line = Raise IndexError
      <-> contains " ::= " line = true /\ contains " - " line = false)
  /\ (forall e, parse_line line = Raise e -> e = IndexError).
Proof.
  pose proof (parse_line_cases line) as H.
  destruct (parse_line line)
    as [[[var_type var_name class_name args|var_name method_name args]|]|e];
    destruct (contains " ::= " line), (contains " - " line), (contains " -> " line);
    repeat match goal with
           | |- _ /\ _ => split
           | |- _ <-> _ => split
           | |- forall _, _ => intro
           | K : _ /\ _ |- _ => destruct K
           | K : exists _, _ |- _ => destruct K
           end;
    try congruence; eauto 6.
Qed.




(** [list.index] finds the first place that holds the value. *)
Lemma list_index_first x l i :
  list_index x l = Ok i -> l !! i = Some x /\ forall j, j < i -> l !! j <> Some x.
Proof.
  revert i. induction l as [|y l IH]; intros i; cbn [list_index]; [discriminate|].
  unfold text_eqb. destruct (bool_decide (y = x)) eqn:E.
  - intros [= <-]. apply bool_decide_eq_true in E. subst. split; [reflexivity|]. lia.
  - apply bool_decide_eq_false in E.
    destruct (list_index x l) as [i'|e]; cbn [bind]; [|discriminate].
    intros [= <-]. destruct (IH _ eq_refl) as [H1 H2]. split; [exact H1|].
    intros [|j] Hj; cbn; [congruence|]. apply H2. lia.
Qed.

Lemma parse_lines_ok full_text code_lines output sts :
  parse_lines full_text code_lines output = Statements sts
  <-> exists osts, for_each parse_line code_lines = Ok osts /\ sts = output ++ omap id osts.
Proof.
  revert output. induction code_lines as [|line rest IH]; intros output; cbn [parse_lines for_each].
  - split.
    + intros [= <-]. exists []. now rewrite app_nil_r.
    + intros (osts & [= <-] & ->). now rewrite app_nil_r.
  - destruct (parse_line line) as [[st|]|e]; cbn [bind].
    + rewrite IH. split.
      * intros (osts & -> & ->). exists (Some st :: osts). split; [reflexivity|].
        now rewrite <- app_assoc.
      * intros (osts & H & ->).
        destruct (for_each parse_line rest) as [osts'|e]; cbn [bind] in H; [|discriminate].
        injection H as <-. exists osts'. split; [reflexivity|].
        change (omap id (Some st :: osts')) with (st :: omap id osts').
        now rewrite <- app_assoc.
    + rewrite IH. split.
      * intros (osts & -> & ->). now exists (None :: osts).
      * intros (osts & H & ->).
        destruct (for_each parse_line rest) as [osts'|e]; cbn [bind] in H; [|discriminate].
        injection H as <-. now exists osts'.
    + split.
      * destruct e; try discriminate.
        destruct (list_index line (split [LF] full_text)); discriminate.
      * intros (osts & H & _). discriminate.
Qed.

(** X2: the statements of a script are those of its lines, in the order of
    the lines: [normalize] yields statements exactly when no line raises,
    and then one statement for every declaration or call line. *)
Theorem normalize_statements_in_order full_text sts :
  normalize full_text = Statements sts
  <-> exists osts,
        for_each parse_line (code_lines_of (strip_comments full_text)) = Ok osts
        /\ sts = omap id osts.
Proof. unfold normalize. now rewrite parse_lines_ok. Qed.

Lemma parse_lines_syntax_error full_text code_lines output n :
  parse_lines full_text code_lines output = SyntaxError n ->
  exists before line after osts,
    code_lines = before ++ line :: after
    /\ for_each parse_line before = Ok osts
    /\ parse_line line = Raise IndexError
    /\ list_index line (split [LF] full_text) = Ok (n - 1)
    /\ 1 <= n.
Proof.
  revert output. induction code_lines as [|line rest IH]; intros output; cbn [parse_lines];
    [discriminate|].
  destruct (parse_line line) as [[st|]|e] eqn:E.
  - intros H. destruct (IH _ H) as (before & l & after & osts & -> & Hb & Hl & Hi & Hn).
    exists (line :: before), l, after, (Some st :: osts). cbn [for_each app].
    rewrite E, Hb. auto.
  - intros H. destruct (IH _ H) as (before & l & after & osts & -> & Hb & Hl & Hi & Hn).
    exists (line :: before), l, after, (None :: osts). cbn [for_each app].
    rewrite E, Hb. auto.
  - destruct e; try discriminate.
    destruct (list_index line (split [LF] full_text)) as [i|e] eqn:Ei; [|discriminate].
    intros [= <-]. exists [], line, rest, []. rewrite Nat.add_sub.
    repeat split; auto. lia.
Qed.

(** X3: what a [SyntaxError] report says: the line number [n] is that of the
    first line of the original text that reads like the first line of the
    stripped text that fails to parse, a declaration without [ - ]. *)
Theorem syntax_error_report full_text n :
  normalize full_text = SyntaxError n ->
  exists before line after osts,
    code_lines_of (strip_comments full_text) = before ++ line :: after
    /\ for_each parse_line before = Ok osts
    /\ contains " ::= " line = true /\ contains " - " line = false
    /\ 1 <= n
    /\ split [LF] full_text !! (n - 1) = Some line
    /\ forall j, j < n - 1 -> split [LF] full_text !! j <> Some line.
Proof.
  unfold normalize. intros H.
  destruct (parse_lines_syntax_error _ _ _ _ H) as (before & line & after & osts & Hc & Hb & Hl & Hi & Hn).
  exists before, line, after, osts.
  pose proof (parse_line_cases line) as Hcl. rewrite Hl in Hcl.
  destruct Hcl as (_ & Hd & Hs). apply list_index_first in Hi as [Hi1 Hi2].
  repeat split; auto.
Qed.

Lemma syntax_error_report_witness :
  normalize seven_lines = SyntaxError 2
  /\ exists before line after osts,
       code_lines_of (strip_comments seven_lines) = before ++ line :: after
       /\ for_each parse_line before = Ok osts
       /\ contains " ::= " line = true /\ contains " - " line = false
       /\ 1 <= 2
       /\ split [LF] seven_lines !! (2 - 1) = Some line
       /\ forall j, j < 2 - 1 -> split [LF] seven_lines !! j <> Some line.
Proof.
  split; [vm_compute; reflexivity|].
  apply (syntax_error_report seven_lines 2). vm_compute. reflexivity.
Defined.

Lemma normalize_statements_in_order_witness :
  exists osts,
    for_each parse_line (code_lines_of (strip_comments two_lines)) = Ok osts
    /\ [Construct "T" "m" "C" ["1" : text; "2" : text]; Invoke "m" "go" [[]]] = omap id osts.
Proof.
  apply (proj1 (normalize_statements_in_order two_lines _)). vm_compute. reflexivity.
Defined.

(** ** Lines written from their parts *)

Lemma whitespace_free_no_space w : whitespace_free w = true -> has_char SP w = false.
Proof.
  unfold whitespace_free, has_char. induction w as [|c w IH]; [reflexivity|].
  cbn [forallb existsb]. intros H. apply andb_true_iff in H as [Hc Hw].
  rewrite (IH Hw), orb_false_r.
  destruct (ascii_eqb SP c) eqn:E; [|reflexivity].
  apply ascii_eqb_eq in E. subst c. discriminate.
Qed.

Lemma field_ok_no_space w : field_ok w = true -> has_char SP w = false.
Proof. intros H. apply field_ok_parts in H as [_ H]. now apply whitespace_free_no_space. Qed.

(** Within a word no separator that begins with a space is found. *)
Lemma split_go_word sep w cur rest :
  has_char SP w = false ->
  split_go (SP :: sep) 0 cur (w ++ rest) = split_go (SP :: sep) 0 (rev w ++ cur) rest.
Proof.
  revert cur. induction w as [|c w IH]; intros cur H; [reflexivity|].
  unfold has_char in H. cbn [existsb] in H. apply orb_false_iff in H as [Hc Hw].
  cbn [app split_go startswith]. rewrite Hc. cbn [andb].
  rewrite (IH _ Hw). cbn [rev]. now rewrite <- app_assoc.
Qed.

Lemma split_go_step sep cur c s :
  startswith sep (c :: s) = false ->
  split_go sep 0 cur (c :: s) = split_go sep 0 (c :: cur) s.
Proof. intros H. cbn [split_go]. now rewrite H. Qed.

(** A word, a separator that begins with a space, and the rest. *)
Lemma split_word_sep sep w rest :
  has_char SP w = false ->
  split (SP :: sep) (w ++ (SP :: sep) ++ rest) = w :: split (SP :: sep) rest.
Proof.
  intros H. unfold split. rewrite (split_go_word _ _ _ _ H), app_nil_r.
  rewrite split_go_at by discriminate. now rewrite rev_involutive.
Qed.

Lemma contains_word_sep p w rest : contains p (w ++ p ++ rest) = true.
Proof.
  induction w as [|c w IH].
  - cbn [app]. destruct (p ++ rest) eqn:E; cbn [contains]; rewrite <- E, startswith_app;
      reflexivity.
  - cbn [app contains]. rewrite IH. apply orb_true_r.
Qed.

Lemma contains_word_only sep w : has_char SP w = false -> contains (SP :: sep) w = false.
Proof.
  unfold has_char. induction w as [|c w IH]; [reflexivity|].
  cbn [existsb contains startswith]. intros H. apply orb_false_iff in H as [Hc Hw].
  now rewrite Hc, (IH Hw).
Qed.

Lemma spacing_word w b : field_ok w = true -> spacing b w = Some false.
Proof.
  intros H. apply field_ok_parts in H as [Hn Hw].
  destruct w as [|c w]; [discriminate|]. clear Hn. revert c b Hw.
  induction w as [|d w IH]; intros c b Hw; unfold whitespace_free in Hw;
    cbn [forallb] in Hw; apply andb_true_iff in Hw as [Hc Hw]; apply negb_true_iff in Hc;
    cbn [spacing]; rewrite Hc; [reflexivity|]. now apply IH.
Qed.

Lemma spacing_words ws b :
  forallb field_ok ws = true -> ws <> [] -> spacing b (join " " ws) = Some false.
Proof.
  revert b. induction ws as [|w ws IH]; intros b H Hne; [congruence|].
  cbn [forallb] in H. apply andb_true_iff in H as [Hw Hws].
  destruct ws as [|w' ws]; [now apply spacing_word|].
  rewrite join_cons by discriminate. rewrite spacing_app, (spacing_word _ _ Hw).
  change (spacing false (" " ++ ?r)) with (spacing true r). now apply IH.
Qed.

(** Words joined by single spaces come apart at the spaces. *)
Lemma split_join_words ws :
  forallb field_ok ws = true -> ws <> [] -> split " " (join " " ws) = ws.
Proof.
  induction ws as [|w ws IH]; intros H Hne; [congruence|].
  cbn [forallb] in H. apply andb_true_iff in H as [Hw Hws].
  apply field_ok_no_space in Hw.
  destruct ws as [|w' ws].
  - cbn [join]. unfold split. change (list_ascii_of_string " ") with [SP].
    rewrite split_go_none by now apply contains_word_only. reflexivity.
  - rewrite join_cons by discriminate. change (list_ascii_of_string " ") with ([SP] ++ []) at 2.
    change (list_ascii_of_string " ") with [SP] at 1.
    rewrite <- app_assoc. cbn [app].
    change (w ++ SP :: ?r) with (w ++ [SP] ++ r).
    rewrite (split_word_sep [] w _ Hw). f_equal.
    change [SP] with (list_ascii_of_string " "). now apply IH.
Qed.

Lemma sub_args_other x :
  x <> ("()" : text) -> has_char LF x = false ->
  Re.sub __args_pattern (fun _ => []) x = x.
Proof.
  intros Hx Hlf. change (fun _ : Re.match_object => @nil ascii) with args_repl.
  unfold Re.sub. destruct x as [|c1 x]; [reflexivity|].
  cbn [Re.sub_scan]. rewrite match_at_args.
  destruct x as [|c2 r]; [now rewrite sub_args_later|].
  destruct (ascii_eqb "(" c1 && ascii_eqb ")" c2 && ends_text r) eqn:E;
    [|now rewrite sub_args_later].
  exfalso. apply andb_true_iff in E as [E E3]. apply andb_true_iff in E as [E1 E2].
  apply ascii_eqb_eq in E1, E2. subst c1 c2.
  destruct r as [|c3 r]; [now apply Hx|].
  cbn [ends_text] in E3. apply andb_true_iff in E3 as [E3 _].
  apply ascii_eqb_eq in E3. subst c3. discriminate Hlf.
Qed.

Lemma slice_parens J : slice_1_m1 ("(" ++ J ++ ")") = J.
Proof.
  unfold slice_1_m1.
  assert (Hl : length ("(" ++ J ++ ")") - 2 = length J).
  { rewrite !length_app. cbn [length list_ascii_of_string]. lia. }
  rewrite Hl. change (drop 1 ("(" ++ J ++ ")")) with (J ++ ")").
  apply take_app_length.
Qed.

(** What the two branches of [parse_line] make of the text behind the
    marker: the name before the parenthesis, and the arguments. *)
Lemma after_marker_parts name args :
  field_ok name = true ->
  forallb field_ok args = true ->
  join " " args <> ("()" : text) ->
  index (split " (" (name ++ args_suffix args)) 0 = Ok name
  /\ parse_args (join " " (drop 1 (split_ws (name ++ args_suffix args)))) = args.
Proof.
  intros Hn Hargs Hsent. pose proof (field_ok_no_space _ Hn) as Hsp.
  destruct args as [|a args]; cbn [args_suffix].
  - rewrite app_nil_r. split.
    + unfold split. change (list_ascii_of_string " (") with [SP; "("%char].
      rewrite split_go_none by now apply contains_word_only. reflexivity.
    + unfold split_ws. apply field_ok_parts in Hn as [Hn1 Hn2].
      now rewrite split_ws_whole.
  - set (J := join " " (a :: args)) in *.
    assert (HJ : spacing false J = Some false) by now apply spacing_words.
    split.
    + change (list_ascii_of_string " (") with [SP; "("%char].
      change (name ++ [SP; "("%char] ++ J ++ ")") with (name ++ [SP; "("%char] ++ (J ++ ")")).
      now rewrite split_word_sep.
    + unfold split_ws. change (list_ascii_of_string " (") with (SP :: ("(" : text)).
      cbn [app]. rewrite (split_ws_go_field _ _ Hn). cbn [drop].
      change ("("%char :: J ++ ")") with ("(" ++ J ++ ")").
      assert (HX : spacing true ("(" ++ J ++ ")") = Some false).
      { change (spacing true ("(" ++ J ++ ")")) with (spacing false (J ++ ")")).
        now rewrite spacing_app, HJ. }
      change (split_ws_go [] ("(" ++ J ++ ")")) with (split_ws ("(" ++ J ++ ")")).
      rewrite drop_0, (join_split_ws _ HX). unfold parse_args.
      change ("(" ++ J ++ ")") with ("("%char :: J ++ ")") at 1. cbn iota.
      change ("("%char :: J ++ ")") with ("(" ++ J ++ ")").
      rewrite slice_parens, sub_args_other by
        (assumption || exact (spacing_no_lf _ _ _ HJ)).
      now apply split_join_words.
Qed.

(** X4: a call line written from a receiver, a method name and arguments that
    are words parses to the [Invoke] of these parts, the arguments in
    their order, provided the line holds no declaration marker and no
    second call marker and the arguments are not the lone word [()]. *)
Theorem parse_call_line receiver method_name args :
  field_ok receiver = true ->
  field_ok method_name = true ->
  forallb field_ok args = true ->
  join " " args <> ("()" : text) ->
  contains " ::= " (call_line receiver method_name args) = false ->
  contains " -> " (method_name ++ args_suffix args) = false ->
  parse_line (call_line receiver method_name args)
  = Ok (Some (Invoke receiver method_name args)).
Proof.
  intros Hr Hm Hargs Hsent Hdecl Hcall.
  destruct (after_marker_parts _ _ Hm Hargs Hsent) as [Hname Hparsed].
  assert (Hsplit : split " -> " (call_line receiver method_name args)
                   = [receiver; method_name ++ args_suffix args]).
  { unfold call_line. change (list_ascii_of_string " -> ") with (SP :: ("-> " : text)).
    rewrite split_word_sep by now apply field_ok_no_space.
    unfold split. now rewrite split_go_none. }
  unfold parse_line. rewrite Hdecl.
  assert (Hc : contains " -> " (call_line receiver method_name args) = true)
    by apply contains_word_sep.
  rewrite Hc, !Hsplit. cbn [index lookup list_lookup bind]. rewrite Hname. cbn [bind].
  now rewrite Hparsed.
Qed.

Lemma parse_call_line_witness :
  parse_line "scene -> addGameObject (hero 'tag' 3)"
  = Ok (Some (Invoke "scene" "addGameObject" ["hero" : text; "'tag'" : text; "3" : text])).
Proof.
  apply (parse_call_line "scene" "addGameObject" ["hero" : text; "'tag'" : text; "3" : text]);
    (reflexivity || discriminate).
Defined.

Lemma startswith_word k n r :
  has_char SP k = false -> has_char SP n = false ->
  startswith (k ++ [SP]) (n ++ SP :: r) = true -> n = k.
Proof.
  unfold has_char. revert n. induction k as [|c k IH]; intros n Hk Hn H.
  - destruct n as [|d n]; [reflexivity|]. cbn in H, Hn.
    apply orb_false_iff in Hn as [Hd _]. rewrite Hd in H. discriminate.
  - cbn [existsb] in Hk. apply orb_false_iff in Hk as [Hc Hk].
    destruct n as [|d n].
    + cbn in H. rewrite ascii_eqb_sym, Hc in H. discriminate.
    + cbn [existsb] in Hn. apply orb_false_iff in Hn as [Hd Hn].
      cbn [app startswith] in H. apply andb_true_iff in H as [H1 H2].
      apply ascii_eqb_eq in H1. subst d. f_equal. now apply IH.
Qed.

(** X5: a declaration line written from a type, a name, a class name and
    arguments that are words parses to the [Construct] of these parts,
    the arguments in their order, provided the name is not the word [::=],
    what follows the separator holds no second separator, what follows the
    marker holds no second marker, and the arguments are not the lone
    word [()]. *)
Theorem parse_declaration_line var_type var_name class_name args :
  field_ok var_type = true ->
  field_ok var_name = true ->
  field_ok class_name = true ->
  forallb field_ok args = true ->
  join " " args <> ("()" : text) ->
  var_name <> ("::=" : text) ->
  contains " - " (var_name ++ " ::= " ++ class_name ++ args_suffix args) = false ->
  contains " ::= " (class_name ++ args_suffix args) = false ->
  parse_line (declaration_line var_type var_name class_name args)
  = Ok (Some (Construct var_type var_name class_name args)).
Proof.
  intros Ht Hn Hc Hargs Hsent Hname Hsep Hdecl.
  destruct (after_marker_parts _ _ Hc Hargs Hsent) as [Hclass Hparsed].
  pose proof (field_ok_no_space _ Ht) as Htsp. pose proof (field_ok_no_space _ Hn) as Hnsp.
  set (after := class_name ++ args_suffix args) in *.
  assert (Hdash : split " - " (declaration_line var_type var_name class_name args)
                  = [var_type; var_name ++ " ::= " ++ after]).
  { unfold declaration_line. change (list_ascii_of_string " - ") with (SP :: ("- " : text)).
    rewrite split_word_sep by assumption. unfold split. now rewrite split_go_none. }
  assert (Hname_split : split " ::= " (var_name ++ " ::= " ++ after) = [var_name; after]).
  { change (list_ascii_of_string " ::= ") with (SP :: ("::= " : text)).
    rewrite split_word_sep by assumption. unfold split. now rewrite split_go_none. }
  assert (Hmark : split " ::= " (declaration_line var_type var_name class_name args)
                  = [var_type ++ " - " ++ var_name; after]).
  { unfold declaration_line, split. fold after.
    change (list_ascii_of_string " ::= ") with (SP :: ("::=" : text) ++ [SP]).
    rewrite (split_go_word _ _ _ _ Htsp), app_nil_r.
    change (list_ascii_of_string " - ") with [SP; "-"%char; SP]. cbn [app].
    rewrite (split_go_step _ _ SP) by reflexivity.
    rewrite (split_go_step _ _ "-"%char) by reflexivity.
    rewrite (split_go_step _ _ SP).
    2:{ cbn [startswith]. change (ascii_eqb SP SP) with true. cbn [andb].
        destruct (startswith _ _) eqn:E; [|reflexivity].
        apply startswith_word in E; [contradiction|reflexivity|assumption]. }
    rewrite (split_go_word _ _ _ _ Hnsp).
    change (SP :: ("::=" ++ [SP]) ++ after) with ((SP :: "::=" ++ [SP]) ++ after).
    rewrite split_go_at by discriminate.
    rewrite (split_go_none _ _ _ Hdecl).
    cbn [rev app]. rewrite !rev_app_distr, !rev_involutive. cbn [rev app].
    rewrite <- !app_assoc, rev_involutive. reflexivity. }
  unfold parse_line.
  assert (Hcont : contains " ::= " (declaration_line var_type var_name class_name args) = true).
  { unfold declaration_line.
    rewrite (app_assoc var_type " - " _), (app_assoc (var_type ++ " - ") var_name _).
    apply contains_word_sep. }
  rewrite Hcont, !Hdash. cbn [index lookup list_lookup bind].
  rewrite Hname_split, !Hmark. cbn [index lookup list_lookup bind].
  rewrite Hclass. cbn [bind]. now rewrite Hparsed.
Qed.

Lemma parse_declaration_line_witness :
  parse_line "GameObject* - hero ::= GameObject ('hero_name' 'new_tag')"
  = Ok (Some (Construct "GameObject*" "hero" "GameObject"
                ["'hero_name'" : text; "'new_tag'" : text])).
Proof.
  apply (parse_declaration_line "GameObject*" "hero" "GameObject"
           ["'hero_name'" : text; "'new_tag'" : text]);
    (reflexivity || discriminate).
Defined.

(** ** What comment stripping keeps *)

(** X6: comment stripping only takes characters away: what is left is what
    was there, in the same order. *)
Theorem strip_comments_sublist s : strip_comments s `sublist_of` s.
Proof.
  remember (length s) as n eqn:Hn. revert s Hn.
  induction n as [n IH] using lt_wf_ind. intros s Hn.
  rewrite strip_comments_step.
  destruct (comments_token s) as [[k|k]|] eqn:E.
  - pose proof (comments_token_ge2 _ _ E) as Hk. cbn in Hk.
    rewrite <- (take_drop k s) at 3. apply sublist_app; [reflexivity|].
    apply (IH (length (drop k s))); [subst n; rewrite length_drop; lia|reflexivity].
  - pose proof (comments_token_ge2 _ _ E) as Hk. cbn in Hk.
    transitivity (drop k s); [|apply sublist_drop].
    apply (IH (length (drop k s))); [subst n; rewrite length_drop; lia|reflexivity].
  - destruct s as [|c s]; [reflexivity|]. apply sublist_skip.
    apply (IH (length s)); [subst n; cbn; lia|reflexivity].
Qed.

Lemma has_char_take c n s : has_char c s = false -> has_char c (take n s) = false.
Proof.
  intros H. rewrite <- (take_drop n s), has_char_app in H.
  now apply orb_false_iff in H as [H _].
Qed.

(** X7: a text without a slash holds no comment and is left as it is. *)
Theorem strip_comments_without_slash s :
  has_char "/"%char s = false -> strip_comments s = s.
Proof.
  remember (length s) as n eqn:Hn. revert s Hn.
  induction n as [n IH] using lt_wf_ind. intros s Hn Hs.
  rewrite strip_comments_step.
  destruct (comments_token s) as [[k|k]|] eqn:E.
  - pose proof (comments_token_ge2 _ _ E) as Hk. cbn in Hk.
    rewrite (IH (length (drop k s))); [apply take_drop|subst n; rewrite length_drop; lia
                                      |reflexivity|now apply has_char_drop].
  - apply comments_token_start in E as [r ->]. discriminate.
  - destruct s as [|c s]; [reflexivity|]. f_equal.
    apply (IH (length s)); [subst n; cbn; lia|reflexivity|].
    unfold has_char in *. cbn [existsb] in Hs. now apply orb_false_iff in Hs as [_ ?].
Qed.

Lemma strip_comments_without_slash_witness :
  has_char "/"%char two_lines = false /\ strip_comments two_lines = two_lines.
Proof.
  split; [reflexivity|]. apply (strip_comments_without_slash two_lines). reflexivity.
Defined.

Lemma count_lf_app a b : count_lf (a ++ b) = count_lf a + count_lf b.
Proof. unfold count_lf. now rewrite filter_app, length_app. Qed.

Lemma count_lf_cons c s :
  count_lf (c :: s) = (if ascii_eqb c LF then 1 else 0) + count_lf s.
Proof.
  unfold count_lf. rewrite filter_cons. destruct (decide (c = LF)) as [->|Hne].
  - reflexivity.
  - apply ascii_eqb_neq in Hne. now rewrite Hne.
Qed.

Lemma count_lf_line s : count_lf (take (line_len s) s) = 0.
Proof.
  induction s as [|c s IH]; [reflexivity|]. cbn [line_len].
  destruct (line_char c) eqn:Ec; [|reflexivity].
  cbn [take]. rewrite count_lf_cons, IH. unfold line_char in Ec.
  destruct (ascii_eqb c LF); [|reflexivity]. now rewrite orb_true_r in Ec.
Qed.

Lemma contains_drop p n s : contains p s = false -> contains p (drop n s) = false.
Proof.
  revert s. induction n as [|n IH]; intros s H; [exact H|].
  destruct s as [|c s]; [exact H|]. cbn [drop]. apply IH.
  cbn [contains] in H. now apply orb_false_iff in H as [_ ?].
Qed.

(** X8: stripping a text that opens no block comment keeps its line feeds:
    a line comment ends before the line feed, and a quoted literal is kept
    whole. *)
Theorem strip_comments_keeps_lines s :
  contains "/*" s = false -> count_lf (strip_comments s) = count_lf s.
Proof.
  remember (length s) as n eqn:Hn. revert s Hn.
  induction n as [n IH] using lt_wf_ind. intros s Hn Hs.
  rewrite strip_comments_step.
  destruct (comments_token s) as [[k|k]|] eqn:E.
  - pose proof (comments_token_ge2 _ _ E) as Hk. cbn in Hk.
    rewrite <- (take_drop k s) at 3. rewrite !count_lf_app. f_equal.
    apply (IH (length (drop k s))); [subst n; rewrite length_drop; lia|reflexivity|].
    now apply contains_drop.
  - pose proof (comments_token_ge2 _ _ E) as Hk. cbn in Hk.
    rewrite (IH (length (drop k s))); [|subst n; rewrite length_drop; lia|reflexivity
                                      |now apply contains_drop].
    rewrite <- (take_drop k s) at 2. rewrite count_lf_app.
    assert (Hz : count_lf (take k s) = 0); [|lia].
    unfold comments_token in E. destruct s as [|c s]; [discriminate|].
    destruct (is_quote c); [destruct (find_close c c s); discriminate|].
    destruct (ascii_eqb c "/") eqn:Ec; [|discriminate].
    apply ascii_eqb_eq in Ec. subst c.
    destruct s as [|c' s]; [discriminate|].
    destruct (ascii_eqb c' "*") eqn:Estar.
    + apply ascii_eqb_eq in Estar. subst c'. discriminate Hs.
    + destruct (ascii_eqb c' "/") eqn:Esl; [|discriminate].
      apply ascii_eqb_eq in Esl. subst c'.
      destruct (ends_line (drop (line_len s) s)); [|discriminate].
      injection E as <-. cbn [plus take]. rewrite !count_lf_cons. cbn.
      apply count_lf_line.
  - destruct s as [|c s]; [reflexivity|]. rewrite !count_lf_cons. f_equal.
    apply (IH (length s)); [subst n; cbn; lia|reflexivity|].
    cbn [contains] in Hs. now apply orb_false_iff in Hs as [_ ?].
Qed.

Lemma strip_comments_keeps_lines_witness :
  contains "/*" line_comments_example = false
  /\ count_lf (strip_comments line_comments_example) = count_lf line_comments_example.
Proof.
  split; [reflexivity|]. apply (strip_comments_keeps_lines line_comments_example). reflexivity.
Defined.

(** ** Rendering, and lines [convert.py] cannot read *)

Lemma render_statement_cpp st : render_statement cpp_rule st = Ok (cpp_statement st).
Proof. destruct st; reflexivity. Qed.

(** X9: rendering with the [cpp] rules cannot fail, whatever the statements
    hold: the text is the prologue, then for every statement in order its
    fields in the places of the template and its arguments joined by a
    comma and a space, then the epilogue. *)
Theorem render_cpp sts :
  render cpp_rule sts
  = Ok (rule_start cpp_rule ++ concat (map cpp_statement sts) ++ rule_end cpp_rule).
Proof.
  unfold render.
  assert (H : for_each (render_statement cpp_rule) sts = Ok (map cpp_statement sts)).
  { induction sts as [|st sts IH]; [reflexivity|].
    cbn [for_each map]. now rewrite render_statement_cpp, IH. }
  now rewrite H.
Qed.

(** X10: whatever list of arguments [parse.py] writes, [eval] reads it back:
    quotes, backslashes, control characters and characters beyond ASCII
    included.  So no two argument lists are written alike. *)
Theorem eval_reads_repr args :
  eval_list (repr_list args) = Ok args
  /\ forall args', repr_list args = repr_list args' -> args = args'.
Proof.
  split; [apply eval_repr_list|]. intros args' H.
  pose proof (eval_repr_list args) as H1. rewrite H, eval_repr_list in H1. congruence.
Qed.

Lemma whitespace_free_repr_str a :
  has_char SP a = false -> whitespace_free (repr_str a) = true.
Proof.
  intros H. apply (spacing_whitespace_free false _ false).
  - apply spacing_repr_str. now apply no_double_space_without.
  - now rewrite has_char_repr_str.
Qed.

(** X11: a [method] line with two arguments or more cannot be read: its
    arguments literal is more than one word, [convert.py] evaluates the
    first word alone, and [eval] raises on the unclosed bracket. *)
Theorem read_invoke_many receiver method_name a b args :
  field_ok receiver = true ->
  field_ok method_name = true ->
  has_char SP a = false ->
  read_statement (serialize (Invoke receiver method_name (a :: b :: args)))
  = Raise EvalError.
Proof.
  intros Hr Hm Ha.
  assert (Hw : field_ok ("[" ++ repr_str a ++ ",") = true).
  { unfold field_ok. cbn [app nonempty list_ascii_of_string andb].
    change (?c :: repr_str a ++ ?t) with ([c] ++ repr_str a ++ t).
    rewrite !whitespace_free_app, (whitespace_free_repr_str _ Ha). reflexivity. }
  assert (Hsplit : exists rest,
             split_ws (serialize (Invoke receiver method_name (a :: b :: args)))
             = ("method" : text) :: receiver :: method_name
               :: ("[" ++ repr_str a ++ ",") :: rest).
  { unfold split_ws. cbn [serialize]. unfold repr_list. cbn [map].
    rewrite join_cons by discriminate.
    change (list_ascii_of_string "method ") with (("method" : text) ++ SP :: []).
    change (list_ascii_of_string " ") with [SP].
    change (list_ascii_of_string ", ") with (("," : text) ++ [SP]).
    rewrite <- !app_assoc. cbn [app].
    rewrite (split_ws_go_field "method") by reflexivity.
    rewrite (split_ws_go_field _ _ Hr), (split_ws_go_field _ _ Hm).
    rewrite (app_assoc (repr_str a) "," (SP :: _)).
    rewrite (app_assoc "[" (repr_str a ++ ",") (SP :: _)).
    rewrite (split_ws_go_field _ _ Hw). eauto. }
  destruct Hsplit as [rest Hsplit].
  unfold read_statement. rewrite !Hsplit. cbn [index lookup list_lookup bind].
  change (text_eqb "method" "var") with false.
  change (text_eqb "method" "method") with true. cbn iota.
  unfold eval_list. change (list_ascii_of_string "[") with ["["%char]. cbn [app].
  change (eval_go EvStart [] ("["%char :: ?r)) with (eval_go EvItem [] r).
  rewrite eval_repr_str. reflexivity.
Qed.

Lemma read_invoke_many_witness :
  field_ok "a" = true /\ field_ok "b" = true /\ has_char SP "x" = false
  /\ read_statement (serialize (Invoke "a" "b" ["x" : text; "y" : text; "z" : text]))
     = Raise EvalError.
Proof.
  repeat (split; [reflexivity|]).
  apply (read_invoke_many "a" "b" "x" "y" ["z" : text]); reflexivity.
Defined.

Lemma split_ws_go_blank line : blank line = true -> split_ws_go [] line = [].
Proof.
  unfold blank. induction line as [|c line IH]; [reflexivity|].
  cbn [forallb split_ws_go]. intros H. apply andb_true_iff in H as [Hc Hl].
  rewrite Hc. cbn [emit app]. now apply IH.
Qed.

(** X12: a line of the intermediate file that is blank makes [convert.py]
    raise [IndexError]; a line whose first word is neither [var] nor
    [method] adds nothing to the output. *)
Theorem convert_line_other rule line :
  (blank line = true -> convert_line rule line = Raise IndexError)
  /\ (forall word,
        index (split_ws line) 0 = Ok word ->
        word <> ("var" : text) -> word <> ("method" : text) ->
        convert_line rule line = Ok []).
Proof.
  split.
  - intros H. unfold convert_line, read_statement, split_ws.
    now rewrite (split_ws_go_blank _ H).
  - intros word Hw Hv Hm. unfold convert_line, read_statement. rewrite Hw. cbn [bind].
    unfold text_eqb. now rewrite !bool_decide_eq_false_2 by assumption.
Qed.

Lemma convert_line_other_witness :
  convert_line cpp_rule [LF] = Raise IndexError
  /\ convert_line cpp_rule ("class Game {" ++ [LF]) = Ok [].
Proof.
  split.
  - apply (proj1 (convert_line_other cpp_rule [LF])). reflexivity.
  - apply (proj2 (convert_line_other cpp_rule ("class Game {" ++ [LF])) "class");
      [reflexivity|discriminate|discriminate].
Defined.

Lemma convert_text_cpp_output rule rest :
  convert_text rule (rule_start cpp_rule ++ rest) = Raise IndexError.
Proof.
  unfold convert_text.
  assert (H : exists lines,
             readlines (rule_start cpp_rule ++ rest)
             = ("#include <GGEngine/headers/all.h>" ++ [LF])
               :: ("using namespace gg;" ++ [LF]) :: [LF] :: lines).
  { eexists. unfold readlines. cbn [rule_start cpp_rule]. rewrite <- !app_assoc. cbn [app].
    rewrite (readlines_go_line [] "#include <GGEngine/headers/all.h>") by reflexivity.
    rewrite (readlines_go_line [] "using namespace gg;") by reflexivity.
    change (readlines_go [] (LF :: ?r)) with ([LF] :: readlines_go [] r).
    reflexivity. }
  destruct H as [lines ->]. cbn [for_each].
  change (convert_line rule ("#include <GGEngine/headers/all.h>" ++ [LF])) with (@Ok text []).
  change (convert_line rule ("using namespace gg;" ++ [LF])) with (@Ok text []).
  change (convert_line rule [LF]) with (@Raise text IndexError).
  reflexivity.
Qed.

(** X13: [convert.py] cannot be run on a file it has converted to [cpp]: the
    prologue holds an empty line, reading its first word raises
    [IndexError], and the file stays as it is. *)
Theorem convert_twice (registry : gmap text rule_set) language rule filename rest w :
  registry !! language = Some rule ->
  read_file filename w = Some (rule_start cpp_rule ++ rest) ->
  convert_with registry 3 ["convert.py" : text; language; filename] w
  = (Traceback IndexError, w).
Proof.
  intros Hl Hf. unfold convert_with. cbn [Nat.eqb index lookup list_lookup].
  now rewrite Hl, Hf, convert_text_cpp_output.
Qed.

Lemma convert_twice_witness :
  convert 3 ["convert.py" : text; "cpp" : text; "demo.txt" : text] converted_world
  = (Traceback IndexError, converted_world).
Proof.
  apply (convert_twice rules "cpp" cpp_rule "demo.txt"
           ([LF; TAB] ++ "T* m = new C(1, 2);" ++ [LF; TAB] ++ "m->go();" ++ rule_end cpp_rule)
           converted_world).
  - reflexivity.
  - vm_compute. reflexivity.
Defined.

(** ** Whole runs *)

Lemma universal_newlines_id_le n s :
  length s <= n -> has_char CR s = false -> universal_newlines s = s.
Proof.
  revert s. induction n as [|n IH]; intros s Hn Hs.
  - destruct s; [reflexivity|cbn in Hn; lia].
  - destruct s as [|c s]; [reflexivity|]. cbn [length] in Hn.
    unfold has_char in Hs. cbn [existsb] in Hs. apply orb_false_iff in Hs as [Hc Hs].
    cbn [universal_newlines]. rewrite ascii_eqb_sym, Hc. f_equal. apply IH; [lia|exact Hs].
Qed.

(** Reading in text mode changes nothing in a text without carriage return. *)
Lemma universal_newlines_id s : has_char CR s = false -> universal_newlines s = s.
Proof. now apply (universal_newlines_id_le (length s)). Qed.

Lemma spacing_no_cr b x b' : spacing b x = Some b' -> has_char CR x = false.
Proof.
  revert b. induction x as [|c x IH]; intros b; [reflexivity|].
  cbn [spacing]. unfold has_char in *. cbn [existsb].
  destruct (isspace c) eqn:Ec.
  - destruct (ascii_eqb c SP && negb b) eqn:E; [|discriminate].
    apply andb_true_iff in E as [E _]. apply ascii_eqb_eq in E. subst c.
    intros H. now rewrite (IH _ H).
  - intros H. rewrite (IH _ H), orb_false_r.
    destruct (ascii_eqb CR c) eqn:E; [|reflexivity].
    apply ascii_eqb_eq in E. subst c. discriminate.
Qed.

Lemma whitespace_free_no_cr f : whitespace_free f = true -> has_char CR f = false.
Proof.
  unfold whitespace_free, has_char. induction f as [|c f IH]; [reflexivity|].
  cbn [forallb existsb]. intros H. apply andb_true_iff in H as [Hc Hf].
  rewrite (IH Hf), orb_false_r.
  destruct (ascii_eqb CR c) eqn:E; [|reflexivity].
  apply ascii_eqb_eq in E. subst c. discriminate.
Qed.

Lemma serialize_no_cr st : round_trips st = true -> has_char CR (serialize st) = false.
Proof.
  destruct st as [var_type var_name class_name args | receiver method_name args];
    cbn [round_trips serialize]; intros H.
  - apply andb_true_iff in H as [H Hargs]. apply andb_true_iff in H as [H Hc].
    apply andb_true_iff in H as [Ht Hn].
    apply field_ok_parts in Ht as [_ Ht], Hn as [_ Hn], Hc as [_ Hc].
    rewrite !has_char_app, (whitespace_free_no_cr _ Ht), (whitespace_free_no_cr _ Hn),
      (whitespace_free_no_cr _ Hc), (spacing_no_cr _ _ _ (spacing_repr_list _ Hargs)).
    reflexivity.
  - apply andb_true_iff in H as [H Hargs]. apply andb_true_iff in H as [Hr Hm].
    apply field_ok_parts in Hr as [_ Hr], Hm as [_ Hm].
    apply invoke_args_plain in Hargs.
    rewrite !has_char_app, (whitespace_free_no_cr _ Hr), (whitespace_free_no_cr _ Hm),
      (whitespace_free_no_cr _ Hargs).
    reflexivity.
Qed.

Lemma serialized_no_cr sts :
  forallb round_trips sts = true -> has_char CR (concat (map serialize sts)) = false.
Proof.
  induction sts as [|st sts IH]; intros H; [reflexivity|].
  cbn [forallb] in H. apply andb_true_iff in H as [Hst Hsts].
  cbn [map concat]. now rewrite has_char_app, (serialize_no_cr _ Hst), (IH Hsts).
Qed.

Lemma deserialize_serialized sts :
  forallb round_trips sts = true -> deserialize (concat (map serialize sts)) = Ok sts.
Proof.
  intros H. unfold deserialize.
  rewrite (readlines_serialize _ H), (for_each_read_serialize _ H). cbn [bind].
  now rewrite omap_id_some.
Qed.

(** C9: the rendering [convert] leaves is a function of the statements
    and of the rule set when the intermediate file holds what [parse]
    writes for statements the format carries: whatever else the world
    holds, the file then ends up with [render rule sts].  Of other
    intermediate text this does not hold in [convert.py]: the text behind
    the fields goes to [eval], which evaluates whatever expression it
    finds there, [open('other').read()] for one. *)
Theorem rendering_of_carried_statements (registry : gmap text rule_set) program language
    rule filename sts out w :
  registry !! language = Some rule ->
  forallb round_trips sts = true ->
  render rule sts = Ok out ->
  files w !! filename = Some (concat (map serialize sts)) ->
  convert_with registry 3 [program; language; filename] w
  = (Exit 0, write_file filename out w).
Proof.
  intros Hl Hrt Hr Hf. unfold convert_with. cbn [Nat.eqb index lookup list_lookup].
  rewrite Hl. unfold read_file. rewrite Hf. cbn [fmap option_fmap option_map].
  rewrite (universal_newlines_id _ (serialized_no_cr _ Hrt)).
  now rewrite (convert_text_render _ _ _ (deserialize_serialized _ Hrt)), Hr.
Qed.

(** One intermediate file found in two different worlds. *)
Lemma rendering_of_carried_statements_witness :
  convert 3 ["convert.py" : text; "cpp" : text; "out.txt" : text] busy_world
  = (Exit 0, write_file "out.txt" (rule_start cpp_rule ++ [LF; TAB] ++ "m->go();"
                                   ++ rule_end cpp_rule) busy_world)
  /\ convert 3 ["convert.py" : text; "cpp" : text; "out.txt" : text] quiet_world
     = (Exit 0, write_file "out.txt" (rule_start cpp_rule ++ [LF; TAB] ++ "m->go();"
                                      ++ rule_end cpp_rule) quiet_world).
Proof.
  split.
  - apply (rendering_of_carried_statements rules "convert.py" "cpp" cpp_rule "out.txt"
             [Invoke "m" "go" []] _ busy_world); reflexivity.
  - apply (rendering_of_carried_statements rules "convert.py" "cpp" cpp_rule "out.txt"
             [Invoke "m" "go" []] _ quiet_world); reflexivity.
Defined.

Section Runs.

Variable registry : gmap text rule_set.
Variables (program source target : text) (raw : text) (w : world).
Hypothesis Hsource : files w !! source = Some raw.
Hypothesis Hdistinct : source <> target.

Lemma read_source_after_open :
  read_file source (write_file target [] w) = Some (universal_newlines raw).
Proof.
  unfold read_file, write_file. cbn [files].
  rewrite lookup_insert_ne by congruence. now rewrite Hsource.
Qed.

Lemma parse_try_statements convert_to argv sts :
  index argv 1 = Ok source -> index argv 2 = Ok target ->
  normalize (universal_newlines raw) = Statements sts ->
  parse_try registry convert_to argv w
  = let w2 := write_file target (concat (map serialize sts)) (write_file target [] w) in
    if text_eqb convert_to "txt" then w2
    else match convert_with registry 3 ["convert.py" : text; convert_to; target] w2 with
         | (Traceback FileNotFoundError, w3) => print "File is not found" w3
         | (_, w3) => w3
         end.
Proof.
  intros H1 H2 Hn. unfold parse_try.
  rewrite H1, Hsource, H2, read_source_after_open. cbn [from_option id].
  now rewrite Hn.
Qed.


End Runs.



(** X15: run with a language, [parse] ends as a run without one followed
    by a run of [convert] on the output file does, files and printed
    lines alike, whenever the script normalizes to statements the
    intermediate format carries and their rendering succeeds. *)
Theorem parse_then_convert (registry : gmap text rule_set) program source target language
    rule raw sts out w :
  files w !! source = Some raw ->
  source <> target ->
  registry !! language = Some rule ->
  language <> ("txt" : text) ->
  normalize (universal_newlines raw) = Statements sts ->
  forallb round_trips sts = true ->
  render rule sts = Ok out ->
  parse_with registry 4 [program; source; target; language] w
  = (Exit 0, snd (convert_with registry 3 ["convert.py" : text; language; target]
                    (snd (parse_with registry 3 [program; source; target] w)))).
Proof.
  intros Hs Hd Hl Ht Hn Hrt Hr. unfold parse_with. cbn [Nat.eqb index lookup list_lookup].
  rewrite Hl. rewrite (bool_decide_eq_true_2 (is_Some (Some rule))) by eauto. cbn [orb snd].
  rewrite !(parse_try_statements registry source target raw w Hs Hd _ _ sts)
    by (reflexivity || assumption).
  cbn zeta. change (text_eqb "txt" "txt") with true. cbn iota.
  unfold text_eqb. rewrite bool_decide_eq_false_2 by assumption.
  set (w2 := write_file target (concat (map serialize sts)) (write_file target [] w)).
  assert (Hc : convert_with registry 3 ["convert.py" : text; language; target] w2
               = (Exit 0, write_file target out w2)).
  { unfold convert_with. cbn [Nat.eqb index lookup list_lookup]. rewrite Hl.
    unfold read_file, w2, write_file. cbn [files]. rewrite lookup_insert_eq.
    cbn [fmap option_fmap option_map].
    rewrite (universal_newlines_id _ (serialized_no_cr _ Hrt)).
    now rewrite (convert_text_render _ _ _ (deserialize_serialized _ Hrt)), Hr. }
  now rewrite Hc.
Qed.

Lemma parse_then_convert_witness :
  parse 4 ["parse.py" : text; "demo.gg" : text; "demo.txt" : text; "cpp" : text]
    {| files := {[ ("demo.gg" : text) := ("T - m ::= C (1 2)" ++ [LF] ++ "m -> go (x)" : text) ]};
       stdout := [] |}
  = (Exit 0,
     snd (convert 3 ["convert.py" : text; "cpp" : text; "demo.txt" : text]
            (snd (parse 3 ["parse.py" : text; "demo.gg" : text; "demo.txt" : text]
                    {| files := {[ ("demo.gg" : text) :=
                                     ("T - m ::= C (1 2)" ++ [LF] ++ "m -> go (x)" : text) ]};
                       stdout := [] |})))).
Proof.
  apply (parse_then_convert rules "parse.py" "demo.gg" "demo.txt" "cpp" cpp_rule
           ("T - m ::= C (1 2)" ++ [LF] ++ "m -> go (x)")
           [Construct "T" "m" "C" ["1" : text; "2" : text]; Invoke "m" "go" ["x" : text]]
           (rule_start cpp_rule ++ [LF; TAB] ++ "T* m = new C(1, 2);"
            ++ [LF; TAB] ++ "m->go(x);" ++ rule_end cpp_rule)).
  - reflexivity.
  - discriminate.
  - reflexivity.
  - discriminate.
  - vm_compute. reflexivity.
  - reflexivity.
  - vm_compute. reflexivity.
Defined.



(** X17: a script that does not exist: [parse] prints [File is not found],
    creates no output file, and ends with status 0, since the [finally]
    clause exits after the handler. *)
Theorem parse_missing_source (registry : gmap text rule_set) argc argv source w :
  files w !! source = None ->
  index argv 1 = Ok source ->
  (argc = 0 \/ argc = 3 \/ 5 <= argc) ->
  parse_with registry argc argv w = (Exit 0, print "File is not found" w).
Proof.
  intros Hs H1 Hargc. unfold parse_with.
  destruct argc as [|[|[|[|[|argc]]]]]; try lia; cbn [Nat.eqb];
    unfold parse_try; now rewrite H1, Hs.
Qed.

Lemma parse_missing_source_witness :
  parse 3 ["parse.py" : text; "nothing.gg" : text; "demo.txt" : text] demo_world
  = (Exit 0, print "File is not found" demo_world).
Proof.
  apply (parse_missing_source rules 3 _ "nothing.gg" demo_world).
  - reflexivity.
  - reflexivity.
  - right. now left.
Defined.

(** X18: run without a language, [parse] touches no file other than the
    one named by its second argument: whatever the arguments and however
    the run ends, every other file holds afterwards what it held
    before. *)
Theorem only_output_written (registry : gmap text rule_set) argc argv w path :
  argc <> 4 ->
  index argv 2 <> Ok path ->
  files (snd (parse_with registry argc argv w)) !! path = files w !! path.
Proof.
  intros Hargc Hp. unfold parse_with.
  destruct (argc =? 1)%nat; [reflexivity|]. destruct (argc =? 2)%nat; [reflexivity|].
  apply Nat.eqb_neq in Hargc. rewrite Hargc. cbn [snd]. unfold parse_try.
  destruct (index argv 1) as [source|e]; [|reflexivity].
  destruct (files w !! source) as [raw|]; [|reflexivity].
  destruct (index argv 2) as [target|e] eqn:Et; [|reflexivity].
  assert (Hne : target <> path) by congruence.
  change (text_eqb "txt" "txt") with true.
  destruct (normalize _) as [output|n|e]; cbn [print write_file files];
    rewrite ?lookup_insert_ne by exact Hne; reflexivity.
Qed.

Lemma only_output_written_witness :
  files (snd (parse 3 ["parse.py" : text; "demo.gg" : text; "out.txt" : text] busy_world))
    !! ("other" : text)
  = files busy_world !! ("other" : text).
Proof.
  apply (only_output_written rules 3
           ["parse.py" : text; "demo.gg" : text; "out.txt" : text] busy_world "other").
  - discriminate.
  - vm_compute. discriminate.
Defined.

(** X19: given one file as script and as output, [parse] loses the script: the
    file is opened for writing before it is read, so nothing is read, no
    statement is found, and the file is left empty, or with the bare frame
    of the language asked for.  The run ends with status 0 and prints
    nothing. *)
Theorem parse_in_place (registry : gmap text rule_set) program file raw w :
  files w !! file = Some raw ->
  parse_with registry 3 [program; file; file] w
  = (Exit 0, {| files := <[file := []]> (files w); stdout := stdout w |})
  /\ forall language rule,
       registry !! language = Some rule -> language <> ("txt" : text) ->
       parse_with registry 4 [program; file; file; language] w
       = (Exit 0, {| files := <[file := rule_start rule ++ rule_end rule]> (files w);
                     stdout := stdout w |}).
Proof.
  intros Hf.
  assert (Hread : forall content, read_file file (write_file file content w)
                                  = Some (universal_newlines content)).
  { intros content. unfold read_file, write_file. cbn [files].
    now rewrite lookup_insert_eq. }
  assert (Htry : forall convert_to language,
             parse_try registry convert_to [program; file; file; language] w
             = parse_try registry convert_to [program; file; file] w).
  { reflexivity. }
  assert (Hwritten : forall convert_to,
             parse_try registry convert_to [program; file; file] w
             = let w2 := write_file file [] w in
               if text_eqb convert_to "txt" then w2
               else match convert_with registry 3 ["convert.py" : text; convert_to; file] w2 with
                    | (Traceback FileNotFoundError, w3) => print "File is not found" w3
                    | (_, w3) => w3
                    end).
  { intros convert_to. unfold parse_try. cbn [index lookup list_lookup].
    rewrite Hf, Hread. cbn [universal_newlines from_option id].
    change (normalize []) with (Statements []). cbn [map concat].
    replace (write_file file [] (write_file file [] w)) with (write_file file [] w);
      [reflexivity|].
    unfold write_file. cbn [files stdout]. now rewrite insert_insert_eq. }
  split.
  - unfold parse_with. cbn [Nat.eqb]. rewrite Hwritten. reflexivity.
  - intros language rule Hrule Htxt. unfold parse_with. cbn [Nat.eqb index lookup list_lookup].
    rewrite Hrule. rewrite bool_decide_eq_true_2 by eauto. cbn [orb].
    rewrite Htry, Hwritten. cbn zeta.
    unfold text_eqb. rewrite bool_decide_eq_false_2 by exact Htxt.
    unfold convert_with. cbn [Nat.eqb index lookup list_lookup]. rewrite Hrule, Hread.
    cbn [universal_newlines]. change (convert_text rule []) with
      (Ok (rule_start rule ++ concat [] ++ rule_end rule)). cbn [concat app].
    unfold write_file. cbn [files stdout]. now rewrite insert_insert_eq.
Qed.

Lemma parse_in_place_witness :
  parse 3 ["parse.py" : text; "demo.gg" : text; "demo.gg" : text] demo_world
  = (Exit 0, {| files := <[("demo.gg" : text) := []]> (files demo_world);
                stdout := stdout demo_world |})
  /\ forall language rule,
       rules !! language = Some rule -> language <> ("txt" : text) ->
       parse 4 ["parse.py" : text; "demo.gg" : text; "demo.gg" : text; language] demo_world
       = (Exit 0, {| files := <[("demo.gg" : text) := rule_start rule ++ rule_end rule]>
                                (files demo_world);
                     stdout := stdout demo_world |}).
Proof.
  apply (parse_in_place rules "parse.py" "demo.gg" two_lines demo_world). reflexivity.
Defined.
